(** * S2Cell: the S2 cell identifier codec of Source/Core/S2Cell.js

    A shallow embedding of the identifier codec, the Hilbert lookup-table
    generator, the face/IJ decoder and the coordinate transforms up to
    [getS2Center], followed by the properties of the written
    specification that concern them and by further properties of the
    code.

    Conventions of the embedding:
    - a JavaScript [BigInt] is a [Z]; BigInt arithmetic is unbounded, so
      [~x + 1n] is [Z.lnot x + 1] with no wrap-around;
    - a JavaScript [Number] that holds an integer is a [Z]; the 32-bit
      operators [<<], [>>], [&], [|], [^] convert their operands with
      [ToInt32] first, which is written out in [Module JS];
    - an [Array] is a list with holes, [list (option Z)]; writing past the
      end extends it, reading a hole or past the end gives [undefined];
    - [throw] is the [Throw] outcome; loops and recursions whose
      termination is not structural take fuel and give [Timeout] when it
      runs out. *)

From Stdlib Require Import ZArith List String Ascii Bool Lia PrimFloat Uint63 HexString.
Import ListNotations.
Local Open Scope Z_scope.

(** ** Outcomes and the state/exception monad *)

Inductive exn : Type :=
| RuntimeError (message : string)
| DeveloperError (message : option string)
| TypeError
| RangeError
| SyntaxError.

Inductive outcome (A : Type) : Type :=
| Ok (a : A)
| Throw (e : exn)
| Timeout.
Arguments Ok {A} a.
Arguments Throw {A} e.
Arguments Timeout {A}.

Definition obind {A B : Type} (o : outcome A) (k : A -> outcome B) : outcome B :=
  match o with
  | Ok a => k a
  | Throw e => Throw e
  | Timeout => Timeout
  end.

(** [M S A]: a computation over a mutable store [S]; what was written
    before a [throw] stays written. *)
Definition M (S A : Type) : Type := S -> outcome A * S.

Definition ret {S A : Type} (a : A) : M S A := fun s => (Ok a, s).
Definition bind {S A B : Type} (c : M S A) (k : A -> M S B) : M S B :=
  fun s => match c s with
           | (Ok a, s') => k a s'
           | (Throw e, s') => (Throw e, s')
           | (Timeout, s') => (Timeout, s')
           end.
Definition throw {S A : Type} (e : exn) : M S A := fun s => (Throw e, s).
Definition timeout {S A : Type} : M S A := fun s => (Timeout, s).
Definition get {S : Type} : M S S := fun s => (Ok s, s).
Definition put {S : Type} (s : S) : M S unit := fun _ => (Ok tt, s).
Definition lift {S A : Type} (o : outcome A) : M S A := fun s => (o, s).

Declare Scope js_scope.
Delimit Scope js_scope with js.
Notation "x <- c ;; k" := (bind c (fun x => k))
  (at level 61, c at next level, right associativity) : js_scope.
Notation "c ;; k" := (bind c (fun _ => k))
  (at level 61, right associativity) : js_scope.
Notation "x <-! o ;; k" := (obind o (fun x => k))
  (at level 61, o at next level, right associativity) : js_scope.

(** ** The JavaScript operators the source uses *)

Module JS.

(** A Number as the decoder meets it: an integer, or [NaN] after an
    addition with [undefined]. *)
Inductive number : Type :=
| NaN
| Int (z : Z).

(** What an array read or a property read gives. *)
Inductive value : Type :=
| Undefined
| Num (n : Z).

Definition ToInt32 (z : Z) : Z := (z + 2 ^ 31) mod 2 ^ 32 - 2 ^ 31.

(** [a << b], [a >> b], [a & b], [a | b], [a ^ b] on Numbers. *)
Definition shl (a b : Z) : Z := ToInt32 (Z.shiftl (ToInt32 a) (b mod 32)).
Definition sar (a b : Z) : Z := Z.shiftr (ToInt32 a) (b mod 32).
Definition and (a b : Z) : Z := Z.land (ToInt32 a) (ToInt32 b).
Definition or (a b : Z) : Z := Z.lor (ToInt32 a) (ToInt32 b).
Definition xor (a b : Z) : Z := Z.lxor (ToInt32 a) (ToInt32 b).

(** ToNumber followed by ToInt32: [undefined] and [NaN] become 0. *)
Definition value_ToInt32 (v : value) : Z :=
  match v with
  | Undefined => 0
  | Num n => ToInt32 n
  end.
Definition number_ToInt32 (n : number) : Z :=
  match n with
  | NaN => 0
  | Int z => ToInt32 z
  end.

Definition ToNumber (v : value) : number :=
  match v with
  | Undefined => NaN
  | Num n => Int n
  end.

Definition add (a b : number) : number :=
  match a, b with
  | Int x, Int y => Int (x + y)
  | _, _ => NaN
  end.
Definition mul (a b : number) : number :=
  match a, b with
  | Int x, Int y => Int (x * y)
  | _, _ => NaN
  end.

(** [Number(b)] for a BigInt [b]: the nearest double, ties to even.  A
    double of magnitude 2^53 or more is an integer, so the result is a
    [Z] (magnitudes of 2^1024 and more, which give [Infinity], are far
    beyond any identifier and are not told apart here). *)
Definition Number_of_BigInt (b : Z) : Z :=
  let a := Z.abs b in
  let e := Z.log2 a in
  if e <? 53 then b
  else
    let sh := e - 52 in
    let q := Z.shiftr a sh in
    let r := Z.land a (Z.ones sh) in
    let half := 2 ^ (sh - 1) in
    let q' := if (half <? r) || ((r =? half) && Z.odd q) then q + 1 else q in
    Z.sgn b * Z.shiftl q' sh.

(** Arrays with holes. *)
Definition array : Type := list (option Z).

Definition array_length (a : array) : Z := Z.of_nat (List.length a).

Definition array_get (a : array) (idx : Z) : value :=
  if idx <? 0 then Undefined
  else match nth_error a (Z.to_nat idx) with
       | Some (Some v) => Num v
       | _ => Undefined
       end.

Fixpoint replace_nth (n : nat) (a : array) (v : Z) : array :=
  match a, n with
  | [], _ => []
  | _ :: tl, O => Some v :: tl
  | hd :: tl, S n' => hd :: replace_nth n' tl v
  end.

(** [a[idx] = v] for an index [idx >= 0]; a write past the end leaves
    holes between the old end and [idx].  (A negative key would name an
    ordinary property and leave the elements alone; the source never
    writes one.) *)
Definition array_set (a : array) (idx : Z) (v : Z) : array :=
  if idx <? 0 then a
  else
    let n := Z.to_nat idx in
    if (n <? List.length a)%nat then replace_nth n a v
    else a ++ repeat None (n - List.length a) ++ [Some v].

(** [v[k]]: reading a property of [undefined] throws; a Number has no
    indexed properties. *)
Definition member (v : value) (k : Z) : outcome value :=
  match v with
  | Undefined => Throw TypeError
  | Num _ => Ok Undefined
  end.

(** Truthiness of a Number and of a BigInt. *)
Definition truthy (z : Z) : bool := negb (z =? 0).

(** [b.toString(16)] for a BigInt: the digits of the magnitude in base
    16, most significant first, with no leading zero, after a "-" for a
    negative value.  [hex_digits] produces one digit per unit of fuel;
    [Z.log2 b + 1] units are more than the digits of [b]. *)
Definition hex_digit (d : Z) : ascii :=
  match d with
  | 0 => "0" | 1 => "1" | 2 => "2" | 3 => "3"
  | 4 => "4" | 5 => "5" | 6 => "6" | 7 => "7"
  | 8 => "8" | 9 => "9" | 10 => "a" | 11 => "b"
  | 12 => "c" | 13 => "d" | 14 => "e" | _ => "f"
  end%char.

Fixpoint hex_digits (fuel : nat) (n : Z) (acc : string) : string :=
  match fuel with
  | O => acc
  | S fuel' =>
      let acc' := String (hex_digit (n mod 16)) acc in
      if n / 16 =? 0 then acc' else hex_digits fuel' (n / 16) acc'
  end.

Definition BigInt_toString16 (b : Z) : string :=
  let digits := hex_digits (S (Z.to_nat (Z.log2 (Z.abs b)))) (Z.abs b) "" in
  if b <? 0 then String "-" digits else digits.

(** [s.replace(/0*$/, "")]: the trailing run of "0" is removed. *)
Fixpoint strip_trailing_zeros (s : string) : string :=
  match s with
  | EmptyString => EmptyString
  | String c s' =>
      match strip_trailing_zeros s' with
      | EmptyString => if Ascii.eqb c "0" then EmptyString else String c EmptyString
      | t => String c t
      end
  end.

(** ["0".repeat(n)] *)
Fixpoint zeros (n : nat) : string :=
  match n with
  | O => EmptyString
  | S n' => String "0" (zeros n')
  end.

Definition repeat0 (n : Z) : outcome string :=
  if n <? 0 then Throw RangeError else Ok (zeros (Z.to_nat n)).

Definition is_hex_digit (c : ascii) : bool :=
  match HexString.ascii_to_digit c with
  | Some _ => true
  | None => false
  end.

Fixpoint all_hex_digits (s : string) : bool :=
  match s with
  | EmptyString => true
  | String c s' => is_hex_digit c && all_hex_digits s'
  end.

Fixpoint parse_hex_digits (s : string) (acc : Z) : option Z :=
  match s with
  | EmptyString => Some acc
  | String c s' =>
      match HexString.ascii_to_digit c with
      | Some d => parse_hex_digits s' (16 * acc + Z.of_N d)
      | None => None
      end
  end.

Definition is_white_space (c : ascii) : bool :=
  let n := N_of_ascii c in
  ((9 <=? n) && (n <=? 13))%N || (n =? 32)%N.

Fixpoint trim_end (s : string) : string :=
  match s with
  | EmptyString => EmptyString
  | String c s' =>
      match trim_end s' with
      | EmptyString => if is_white_space c then EmptyString else String c EmptyString
      | t => String c t
      end
  end.

(** [BigInt("0x" + digits)] for an ASCII string [digits]: white space at
    the end is trimmed, then at least one hexadecimal digit and nothing
    else is accepted. *)
Definition BigInt_of_hex (digits : string) : outcome Z :=
  match trim_end digits with
  | EmptyString => Throw SyntaxError
  | t => match parse_hex_digits t 0 with
         | Some z => Ok z
         | None => Throw SyntaxError
         end
  end.

End JS.

(** ** Constants of the module *)

Definition S2MaxLevel : Z := 30.
Definition S2FaceBits : Z := 3.
Definition S2PositionBits : Z := 2 * S2MaxLevel + 1.
Definition S2LookupBits : Z := 4.

Definition S2PosToIJ : list (list Z) :=
  [ [0; 1; 3; 2];
    [0; 2; 3; 1];
    [3; 2; 0; 1];
    [3; 1; 0; 2] ].

Definition S2SwapMask : Z := 1.
Definition S2InvertMask : Z := 2.

Definition S2PosToOrientationMask : JS.array :=
  [Some S2SwapMask; Some 0; Some 0; Some (JS.or S2SwapMask S2InvertMask)].

(** ** Identifier codec *)

(** [lsb(cellId)], the helper at the end of the source. *)
Definition lsb (cellId : Z) : Z := Z.land cellId (Z.lnot cellId + 1).

Definition isValidId (cellId : Z) : bool :=
  if cellId <=? 0 then false
  else if Z.shiftr cellId S2PositionBits >? 5 then false
  else
    let lowestSetBit := Z.land cellId (Z.lnot cellId + 1) in
    if negb (JS.truthy (Z.land lowestSetBit 0x1555555555555555)) then false
    else true.

Definition getIdFromToken (token : string) : outcome Z :=
  if String.eqb token "X" then Ok 0
  else
    (pad <-! JS.repeat0 (16 - Z.of_nat (String.length token)) ;;
     JS.BigInt_of_hex (token ++ pad))%js.

(** The test against [^[0-9a-fA-F]{1,16}$] comes first. *)
Definition isValidToken (token : string) : outcome bool :=
  let n := String.length token in
  if negb ((1 <=? n)%nat && (n <=? 16)%nat && JS.all_hex_digits token)
  then Ok false
  else (id <-! getIdFromToken token ;; Ok (isValidId id))%js.

Definition getTokenFromId (cellId : Z) : string :=
  if cellId =? 0 then "X"
  else JS.strip_trailing_zeros (JS.BigInt_toString16 cellId).

(** The [while] loop of [getLevel]. *)
Fixpoint getLevel_loop (fuel : nat) (cellId lsbPosition : Z) : outcome Z :=
  match fuel with
  | O => Timeout
  | S fuel' =>
      if cellId =? 0 then Ok lsbPosition
      else if JS.truthy (Z.land cellId 1) then Ok lsbPosition
      else getLevel_loop fuel' (Z.shiftr cellId 1) (lsbPosition + 1)
  end.

(** The loop runs on validated identifiers only, which are below 2^64. *)
Definition getLevel_fuel : nat := 65.

Definition getLevel (cellId : Z) : outcome Z :=
  if negb (isValidId cellId) then Throw (DeveloperError None)
  else
    (lsbPosition <-! getLevel_loop getLevel_fuel cellId 0 ;;
     Ok (S2MaxLevel - JS.sar lsbPosition 1))%js.

(** ** The cell object *)

Record S2Cell : Type := mkS2Cell { _cellId : Z; _level : Z }.

Section Cell.

(** [FeatureDetection.supportsBigInt()], a collaborator outside the module. *)
Variable supportsBigInt : bool.

(** [new S2Cell(cellId)]; [cellId] is a BigInt, so the [defined] and
    [Check.typeOf] tests hold by typing, here and below. *)
Definition S2Cell_new (cellId : Z) : outcome S2Cell :=
  if negb supportsBigInt then Throw (RuntimeError "S2 required BigInt support")
  else if negb (isValidId cellId) then Throw (DeveloperError (Some "cell ID is invalid."%string))
  else (level <-! getLevel cellId ;; Ok (mkS2Cell cellId level))%js.

Definition fromToken (token : string) : outcome S2Cell :=
  (valid <-! isValidToken token ;;
   if negb valid then Throw (DeveloperError (Some "token is invalid."%string))
   else id <-! getIdFromToken token ;; S2Cell_new id)%js.

(** The methods run over the receiver [this]; [index] is an integer
    Number. *)
Definition getChild (index : Z) : M S2Cell S2Cell :=
  (this <- get ;;
   if (index <? 0) || (index >? 3)
   then throw (DeveloperError (Some "child index must be in the range [0-3]."%string))
   else if _level this =? 30
   then throw (DeveloperError (Some "cannot get child of leaf cell."%string))
   else
     let newLsb := Z.shiftr (lsb (_cellId this)) 2 in
     let childCellId := _cellId this + (2 * index + 1 - 4) * newLsb in
     lift (S2Cell_new childCellId))%js.

Definition getParent : M S2Cell S2Cell :=
  (this <- get ;;
   if _level this =? 0
   then throw (DeveloperError (Some "cannot get parent of root cell."%string))
   else
     let newLsb := Z.shiftl (lsb (_cellId this)) 2 in
     lift (S2Cell_new (Z.lor (Z.land (_cellId this) (Z.lnot newLsb + 1)) newLsb)))%js.

End Cell.

(** ** Lookup-table generator *)

(** The two module-level tables. *)
Record tables : Type := mkTables {
  S2LookupPositions : JS.array;
  S2LookupIJ : JS.array
}.

Definition initial_tables : tables := mkTables [] [].

Definition set_S2LookupPositions (idx v : Z) : M tables unit :=
  fun t => (Ok tt, mkTables (JS.array_set (S2LookupPositions t) idx v) (S2LookupIJ t)).
Definition set_S2LookupIJ (idx v : Z) : M tables unit :=
  fun t => (Ok tt, mkTables (S2LookupPositions t) (JS.array_set (S2LookupIJ t) idx v)).

(** [r] is read from [S2PosToOrientationMask], so it is a Number and
    [r[0]] .. [r[3]] are [undefined]; the recursion deepens until
    [level === S2LookupBits]. *)
Fixpoint generateLookupCell (fuel : nat)
    (level i j originalOrientation position orientation : Z) {struct fuel}
    : M tables unit :=
  match fuel with
  | O => timeout
  | S fuel' =>
      if level =? S2LookupBits then
        (let ij := JS.shl i S2LookupBits + j in
         set_S2LookupPositions (JS.shl ij 2 + originalOrientation)
                               (JS.shl position 2 + orientation) ;;
         set_S2LookupIJ (JS.shl position 2 + originalOrientation)
                        (JS.shl ij 2 + orientation))%js
      else
        (let level := level + 1 in
         let i := JS.shl i 1 in
         let j := JS.shl j 1 in
         let position := JS.shl position 2 in
         let r := JS.array_get S2PosToOrientationMask orientation in
         let mask (n : Z) := JS.value_ToInt32 (JS.array_get S2PosToOrientationMask n) in
         r0 <- lift (JS.member r 0) ;;
         generateLookupCell fuel' level
           (i + JS.sar (JS.value_ToInt32 r0) 1)
           (j + JS.and (JS.value_ToInt32 r0) 1)
           originalOrientation position (JS.xor orientation (mask 0)) ;;
         r1 <- lift (JS.member r 1) ;;
         generateLookupCell fuel' level
           (i + JS.sar (JS.value_ToInt32 r1) 1)
           (j + JS.and (JS.value_ToInt32 r1) 1)
           originalOrientation (position + 1) (JS.xor orientation (mask 1)) ;;
         r2 <- lift (JS.member r 2) ;;
         generateLookupCell fuel' level
           (i + JS.sar (JS.value_ToInt32 r2) 1)
           (j + JS.and (JS.value_ToInt32 r2) 1)
           originalOrientation (position + 2) (JS.xor orientation (mask 2)) ;;
         r3 <- lift (JS.member r 3) ;;
         generateLookupCell fuel' level
           (i + JS.sar (JS.value_ToInt32 r3) 1)
           (j + JS.and (JS.value_ToInt32 r3) 1)
           originalOrientation (position + 3) (JS.xor orientation (mask 3)))%js
  end.

(** Five frames: levels 0 to 4. *)
Definition generateLookupCell_fuel : nat := 5.

Definition generateLookupTable : M tables unit :=
  (generateLookupCell generateLookupCell_fuel 0 0 0 0 0 0 ;;
   generateLookupCell generateLookupCell_fuel 0 0 0 S2SwapMask 0 S2SwapMask ;;
   generateLookupCell generateLookupCell_fuel 0 0 0 S2InvertMask 0 S2InvertMask ;;
   generateLookupCell generateLookupCell_fuel 0 0 0
     (JS.or S2SwapMask S2InvertMask) 0 (JS.or S2SwapMask S2InvertMask))%js.

(** The tables after the first generation. *)
Definition generated_tables : tables :=
  Eval vm_compute in snd (generateLookupTable initial_tables).

(** ** Face/IJ decoder *)

(** One turn of the [for] loop of [getFaceIJOrientation], on [(i, j, bits)]. *)
Definition getFaceIJOrientation_step (lookupIJ : JS.array) (cellId : Z)
    (st : JS.number * JS.number * JS.number) (k : Z)
    : JS.number * JS.number * JS.number :=
  let '(i, j, bits) := st in
  let nBits := if k =? 7 then S2MaxLevel - 7 * S2LookupBits else S2LookupBits in
  let bits :=
    JS.add bits
      (JS.Int (JS.Number_of_BigInt
         (Z.land (Z.shiftr cellId (k * 2 * S2LookupBits + 1))
                 (JS.shl (JS.shl 1 (2 * nBits - 1)) 2)))) in
  let entry :=
    match bits with
    | JS.Int b => JS.array_get lookupIJ b
    | JS.NaN => JS.Undefined
    end in
  let bits := JS.add bits (JS.ToNumber entry) in
  let i :=
    JS.add i (JS.Int (JS.shl (JS.sar (JS.number_ToInt32 bits) (S2LookupBits + 2))
                             (k * S2LookupBits))) in
  let j :=
    JS.add j (JS.Int (JS.shl (JS.and (JS.sar (JS.number_ToInt32 bits) 2)
                                     (JS.shl 1 S2LookupBits - 1))
                             (k * S2LookupBits))) in
  let bits := JS.Int (JS.and (JS.number_ToInt32 bits) (JS.or S2SwapMask S2InvertMask)) in
  (i, j, bits).

(** [orientation] is the optional second argument; the result is the
    array [[i, j, face, orientation]]. *)
Definition getFaceIJOrientation (cellId : Z) (orientation : JS.value)
    : M tables (JS.number * JS.number * Z * JS.value) :=
  (t <- get ;;
   (if JS.array_length (S2LookupPositions t) =? 0 then generateLookupTable else ret tt) ;;
   t <- get ;;
   let face := JS.Number_of_BigInt (Z.shiftr cellId S2PositionBits) in
   let bits := JS.Int (JS.and face S2SwapMask) in
   let '(i, j, bits) :=
     fold_left (getFaceIJOrientation_step (S2LookupIJ t) cellId)
               [7; 6; 5; 4; 3; 2; 1; 0] (JS.Int 0, JS.Int 0, bits) in
   let orientation :=
     match orientation with
     | JS.Num n =>
         if JS.truthy n then
           let bits :=
             if JS.truthy (Z.land (lsb cellId) 0x1111111111111110)
             then JS.xor (JS.number_ToInt32 bits) S2SwapMask
             else JS.number_ToInt32 bits in
           JS.Num bits
         else orientation
     | JS.Undefined => orientation
     end in
   ret (i, j, face, orientation))%js.

(** ** Coordinate transforms *)

Definition getFaceSiTi (cellId : Z) : M tables (Z * JS.number * JS.number) :=
  (faceIJOrientation <- getFaceIJOrientation cellId JS.Undefined ;;
   let '(i, j, face, _) := faceIJOrientation in
   level <- lift (getLevel cellId) ;;
   let delta :=
     if level =? 30 then 1
     else if JS.truthy (JS.xor (JS.number_ToInt32 i)
                               (JS.and (JS.Number_of_BigInt (Z.shiftr cellId 2)) 1))
     then 2
     else 0 in
   ret (face,
        JS.add (JS.mul (JS.Int 2) i) (JS.Int delta),
        JS.add (JS.mul (JS.Int 2) j) (JS.Int delta)))%js.

Record Cartesian3 : Type := mkCartesian3 { x : float; y : float; z : float }.

Definition FaceUVtoXYZ (face : Z) (u v : float) : Cartesian3 :=
  match face with
  | 0 => mkCartesian3 1 u v
  | 1 => mkCartesian3 (- u) 1 v
  | 2 => mkCartesian3 (- u) (- v) 1
  | 3 => mkCartesian3 (- 1) (- v) (- u)
  | 4 => mkCartesian3 v (- 1) (- u)
  | _ => mkCartesian3 v u (- 1)
  end%float.







(** * Properties *)

(** ** The lowest set bit *)

(** The specification's reading of "the lowest set bit of [id] is at the
    0-indexed position [p]". *)
Definition lowest_set_bit_at (id p : Z) : Prop :=
  0 <= p /\ Z.testbit id p = true /\ forall q, 0 <= q < p -> Z.testbit id q = false.

(** The set bits of 0x1555555555555555: the even positions 0, 2, .., 60. *)
Definition level_marker_position (p : Z) : bool := Z.even p && (0 <=? p) && (p <=? 60).

(** On the keys that the forward table does hold, the inverse table maps
    [(pos << 2) + o] back to [(ij << 2) + o']. *)
Definition inverse_on_key (t : tables) (key : Z) : bool :=
  match JS.array_get (S2LookupPositions t) key with
  | JS.Undefined => true
  | JS.Num v =>
      let o := JS.and key 3 in
      let ij := JS.sar key 2 in
      let o' := JS.and v 3 in
      let pos := JS.sar v 2 in
      match JS.array_get (S2LookupIJ t) (JS.shl pos 2 + o) with
      | JS.Num w => w =? JS.shl ij 2 + o'
      | JS.Undefined => false
      end
  end.

(** The lowercase hexadecimal digits, the ones [toString(16)] prints. *)
Definition is_lower_hex_digit (c : ascii) : bool :=
  match HexString.ascii_to_digit c with
  | Some d => Ascii.eqb (JS.hex_digit (Z.of_N d)) c
  | None => false
  end.

Fixpoint all_lower_hex_digits (s : string) : bool :=
  match s with
  | EmptyString => true
  | String c s' => is_lower_hex_digit c && all_lower_hex_digits s'
  end.

(** [getParent] applied [n] times. *)
Fixpoint getParent_iter (supportsBigInt : bool) (n : nat) (c : S2Cell) : outcome S2Cell :=
  match n with
  | O => Ok c
  | S n' => (parent <-! fst (getParent supportsBigInt c) ;;
             getParent_iter supportsBigInt n' parent)%js
  end.

(** The state of the decoder's loop: integers, with two orientation bits. *)
Definition loop_state_ok (st : JS.number * JS.number * JS.number) : Prop :=
  exists i j o, st = (JS.Int i, JS.Int j, JS.Int o) /\ 0 <= o <= 3.

(** The tables a call finds: empty before the first call, generated
    ever after. *)
Definition reachable (t : tables) : Prop := t = initial_tables \/ t = generated_tables.

(** [id] is the odd number [2m+1] shifted to a level-marker position [p],
    with face bits at most 5. *)
Definition shape (id m p : Z) : Prop :=
  0 <= m /\ 0 <= p <= 60 /\ Z.even p = true /\
  id = (2 * m + 1) * 2 ^ p /\ id < 6 * 2 ^ 61.

Module Bits.

Lemma lnot_succ (a : Z) : Z.lnot a + 1 = - a.
Proof. unfold Z.lnot. lia. Qed.

Lemma testbit_1 (n : Z) : 0 < n -> Z.testbit 1 n = false.
Proof. intros Hn. apply (Z.pow2_bits_false 0 n). lia. Qed.

Lemma land_odd_opp (m : Z) : Z.land (2 * m + 1) (- (2 * m + 1)) = 1.
Proof.
  replace (- (2 * m + 1)) with (2 * Z.lnot m + 1) by (unfold Z.lnot; lia).
  apply Z.bits_inj'. intros n Hn.
  rewrite Z.land_spec.
  destruct (Z.eq_dec n 0) as [-> | Hnz].
  - rewrite !Z.testbit_odd_0. reflexivity.
  - replace n with (Z.succ (n - 1)) by lia.
    rewrite !Z.testbit_odd_succ by lia.
    rewrite Z.lnot_spec by lia.
    rewrite andb_negb_r, testbit_1 by lia. reflexivity.
Qed.

(** [lsb] isolates the factor [2^p] of an odd multiple of [2^p]. *)
Lemma lsb_odd_pow2 (m p : Z) : 0 <= p -> lsb ((2 * m + 1) * 2 ^ p) = 2 ^ p.
Proof.
  intros Hp. unfold lsb. rewrite lnot_succ.
  rewrite <- Z.mul_opp_l.
  rewrite <- !Z.shiftl_mul_pow2 by assumption.
  rewrite <- Z.shiftl_land, land_odd_opp.
  rewrite Z.shiftl_mul_pow2 by assumption. lia.
Qed.

(** Every positive integer is an odd multiple of a power of two. *)
Lemma odd_pow2_decomposition (id : Z) :
  0 < id -> exists m p, 0 <= m /\ 0 <= p /\ id = (2 * m + 1) * 2 ^ p.
Proof.
  destruct id as [| q | q]; try lia. intros _.
  induction q as [q _ | q IH | ].
  - exists (Z.pos q), 0. rewrite Z.pow_0_r. lia.
  - destruct IH as (m & p & Hm & Hp & E).
    exists m, (p + 1). repeat split; try lia.
    rewrite Z.pow_add_r, Z.pow_1_r by lia.
    rewrite Pos2Z.inj_xO, E. ring.
  - exists 0, 0. rewrite Z.pow_0_r. lia.
Qed.

Lemma testbit_odd_pow2 (m p q : Z) :
  0 <= p -> 0 <= q ->
  Z.testbit ((2 * m + 1) * 2 ^ p) q = if q <? p then false else Z.testbit (2 * m + 1) (q - p).
Proof.
  intros Hp Hq. rewrite Z.mul_pow2_bits by assumption.
  destruct (Z.ltb_spec q p) as [Hlt | Hge]; [ | reflexivity ].
  apply Z.testbit_neg_r. lia.
Qed.

Lemma lowest_set_bit_odd_pow2 (m p : Z) :
  0 <= p -> lowest_set_bit_at ((2 * m + 1) * 2 ^ p) p.
Proof.
  intros Hp. split; [ assumption | split ].
  - rewrite testbit_odd_pow2 by lia.
    rewrite Z.ltb_irrefl, Z.sub_diag. apply Z.testbit_odd_0.
  - intros q Hq. rewrite testbit_odd_pow2 by lia.
    destruct (Z.ltb_spec q p); [ reflexivity | lia ].
Qed.

Lemma lowest_set_bit_unique (id p q : Z) :
  lowest_set_bit_at id p -> lowest_set_bit_at id q -> p = q.
Proof.
  intros (Hp & Tp & Lp) (Hq & Tq & Lq).
  destruct (Z.lt_trichotomy p q) as [H | [H | H]]; [ | assumption | ].
  - rewrite Lq in Tp by lia. discriminate.
  - rewrite Lp in Tq by lia. discriminate.
Qed.

Lemma land_pow2 (a p : Z) :
  0 <= p -> Z.land (2 ^ p) a = if Z.testbit a p then 2 ^ p else 0.
Proof.
  intros Hp. apply Z.bits_inj'. intros n Hn.
  rewrite Z.land_spec, Z.pow2_bits_eqb by assumption.
  destruct (Z.eqb_spec p n) as [-> | Hne].
  - destruct (Z.testbit a n); [ | now rewrite Z.bits_0 ].
    rewrite Z.pow2_bits_true by assumption. reflexivity.
  - destruct (Z.testbit a p); [ | now rewrite Z.bits_0 ].
    rewrite Z.pow2_bits_false by lia. reflexivity.
Qed.

Lemma pow2_pred (p : Z) : 0 < p -> 2 ^ p = 2 ^ (p - 1) * 2.
Proof.
  intros Hp. replace p with (Z.succ (p - 1)) at 1 by lia.
  rewrite Z.pow_succ_r by lia. lia.
Qed.

Lemma land_1 (a : Z) : Z.land a 1 = a mod 2.
Proof. change 1 with (Z.ones 1). rewrite Z.land_ones by lia. reflexivity. Qed.

Lemma mask_bits (p : Z) :
  0 <= p -> Z.testbit 0x1555555555555555 p = level_marker_position p.
Proof.
  intros Hp. destruct (Z_lt_le_dec p 64) as [Hlt | Hge].
  - assert (forallb (fun n => Bool.eqb (Z.testbit 0x1555555555555555 (Z.of_nat n))
                                       (level_marker_position (Z.of_nat n)))
                    (seq 0 64) = true) as Hall by (vm_compute; reflexivity).
    rewrite forallb_forall in Hall.
    specialize (Hall (Z.to_nat p)).
    rewrite Z2Nat.id in Hall by assumption.
    apply Bool.eqb_prop, Hall, in_seq. lia.
  - rewrite Z.bits_above_log2 by (simpl; lia).
    unfold level_marker_position.
    destruct (Z.leb_spec p 60); [ lia | ].
    now rewrite andb_false_r.
Qed.

End Bits.

Lemma Ok_inj {A : Type} (a b : A) : Ok a = Ok b -> a = b.
Proof. congruence. Qed.

(** ** Shape of the valid identifiers *)

Module Valid.

Lemma face_bits_le (id : Z) : Z.shiftr id S2PositionBits <= 5 <-> id < 6 * 2 ^ 61.
Proof.
  unfold S2PositionBits, S2MaxLevel. rewrite Z.shiftr_div_pow2 by lia.
  change (2 * 30 + 1) with 61.
  pose proof (Z.div_mod id (2 ^ 61) ltac:(lia)) as E.
  pose proof (Z.mod_pos_bound id (2 ^ 61) ltac:(lia)) as B.
  lia.
Qed.

Lemma marker_test (p : Z) :
  0 <= p -> JS.truthy (Z.land (2 ^ p) 0x1555555555555555) = level_marker_position p.
Proof.
  intros Hp. rewrite Bits.land_pow2, Bits.mask_bits by assumption.
  unfold JS.truthy.
  destruct (level_marker_position p); [ | reflexivity ].
  destruct (Z.eqb_spec (2 ^ p) 0) as [E | _]; [ | reflexivity ].
  pose proof (Z.pow_pos_nonneg 2 p ltac:(lia) Hp). lia.
Qed.

Lemma isValidId_shape (id : Z) :
  isValidId id = true <-> exists m p, shape id m p.
Proof.
  unfold isValidId. fold (lsb id). split.
  - destruct (Z.leb_spec id 0) as [ | Hpos]; [ discriminate | ].
    destruct (Z.gtb_spec (Z.shiftr id S2PositionBits) 5) as [ | Hface]; [ discriminate | ].
    destruct (Bits.odd_pow2_decomposition id Hpos) as (m & p & Hm & Hp & E).
    rewrite E at 1. rewrite Bits.lsb_odd_pow2, marker_test by assumption.
    destruct (level_marker_position p) eqn:Hmark; [ intros _ | discriminate ].
    unfold level_marker_position in Hmark.
    apply andb_prop in Hmark as [Hmark Hle]. apply andb_prop in Hmark as [Hev _].
    apply Z.leb_le in Hle.
    exists m, p. unfold shape. rewrite <- face_bits_le. repeat split; try lia; assumption.
  - intros (m & p & Hm & Hp & Hev & E & Hlt).
    assert (0 < id) as Hpos.
    { rewrite E. pose proof (Z.pow_pos_nonneg 2 p ltac:(lia) ltac:(lia)). nia. }
    destruct (Z.leb_spec id 0); [ lia | ].
    apply face_bits_le in Hlt.
    destruct (Z.gtb_spec (Z.shiftr id S2PositionBits) 5); [ lia | ].
    rewrite E at 1. rewrite Bits.lsb_odd_pow2, marker_test by lia.
    unfold level_marker_position. rewrite Hev.
    destruct (Z.leb_spec 0 p); [ | lia ]. destruct (Z.leb_spec p 60); [ | lia ].
    reflexivity.
Qed.

Lemma getLevel_loop_odd_pow2 (fuel : nat) (m p pos : Z) :
  0 <= p -> (Z.to_nat p < fuel)%nat ->
  getLevel_loop fuel ((2 * m + 1) * 2 ^ p) pos = Ok (pos + p).
Proof.
  revert p pos. induction fuel as [| fuel IH]; intros p pos Hp Hfuel; [ lia | ].
  cbn [getLevel_loop].
  assert (0 < 2 ^ p) as Hpow by (apply Z.pow_pos_nonneg; lia).
  destruct (Z.eqb_spec ((2 * m + 1) * 2 ^ p) 0) as [E | _];
    [ apply Z.mul_eq_0 in E; lia | ].
  rewrite Bits.land_1.
  destruct (Z.eq_dec p 0) as [-> | Hnz].
  - rewrite Z.pow_0_r, Z.mul_1_r.
    replace ((2 * m + 1) mod 2) with 1
      by (rewrite Z.add_comm, Z.mul_comm, Z_mod_plus_full; reflexivity).
    cbn. f_equal. lia.
  - rewrite (Bits.pow2_pred p) by lia.
    rewrite Z.mul_assoc, Z_mod_mult. cbn [JS.truthy Z.eqb negb].
    rewrite Z.shiftr_div_pow2, Z.pow_1_r, Z_div_mult by lia.
    rewrite IH by lia. f_equal. lia.
Qed.

Lemma sar_1 (p : Z) : 0 <= p <= 60 -> JS.sar p 1 = p / 2.
Proof.
  intros Hp. unfold JS.sar, JS.ToInt32.
  change (1 mod 32) with 1.
  rewrite Z.shiftr_div_pow2, Z.pow_1_r by lia.
  rewrite Z.mod_small by lia. f_equal. lia.
Qed.

Lemma getLevel_shape (id m p : Z) :
  shape id m p -> getLevel id = Ok (30 - p / 2).
Proof.
  intros Hs. unfold getLevel.
  assert (isValidId id = true) as -> by (apply isValidId_shape; eauto).
  destruct Hs as (Hm & Hp & Hev & E & Hlt). cbn [negb].
  rewrite E, getLevel_loop_odd_pow2 by (unfold getLevel_fuel; lia).
  cbn [obind]. rewrite Z.add_0_l, sar_1 by lia. reflexivity.
Qed.

End Valid.

(** ** Navigation on the shape *)

Module Nav.

Lemma lor_1 (k : Z) : Z.lor k 1 = 2 * (k / 2) + 1.
Proof.
  apply Z.bits_inj'. intros n Hn. rewrite Z.lor_spec.
  destruct (Z.eq_dec n 0) as [-> | Hnz].
  - rewrite Z.testbit_odd_0. apply orb_true_r.
  - replace n with (Z.succ (n - 1)) by lia.
    rewrite Z.testbit_odd_succ by lia.
    rewrite Z.div2_bits by lia.
    rewrite Bits.testbit_1 by lia. apply orb_false_r.
Qed.

Lemma land_opp_pow2 (a n : Z) : 0 <= n -> Z.land a (Z.lnot (2 ^ n) + 1) = a / 2 ^ n * 2 ^ n.
Proof.
  intros Hn. rewrite Bits.lnot_succ.
  replace (- 2 ^ n) with (Z.lnot (Z.ones n)) by (rewrite Z.ones_equiv; unfold Z.lnot; lia).
  rewrite <- Z.ldiff_land, Z.ldiff_ones_r by assumption.
  rewrite Z.shiftl_mul_pow2, Z.shiftr_div_pow2 by assumption. reflexivity.
Qed.

(** The identifier [getChild] builds. *)
Lemma child_id (id m p i : Z) :
  shape id m p -> 2 <= p -> 0 <= i <= 3 ->
  id + (2 * i + 1 - 4) * Z.shiftr (lsb id) 2 = (2 * (4 * m + i) + 1) * 2 ^ (p - 2).
Proof.
  intros (Hm & Hp & Hev & E & Hlt) Hp2 Hi.
  rewrite E at 2. rewrite Bits.lsb_odd_pow2 by lia.
  rewrite Z.shiftr_div_pow2 by lia.
  replace (2 ^ p) with (2 ^ (p - 2) * 2 ^ 2) in * by (rewrite <- Z.pow_add_r by lia; f_equal; lia).
  rewrite Z_div_mult by lia. rewrite E. ring.
Qed.

Lemma child_shape (id m p i : Z) :
  shape id m p -> 2 <= p -> 0 <= i <= 3 ->
  shape ((2 * (4 * m + i) + 1) * 2 ^ (p - 2)) (4 * m + i) (p - 2).
Proof.
  intros (Hm & Hp & Hev & E & Hlt) Hp2 Hi.
  unfold shape. repeat split; try lia.
  - replace p with (p - 2 + 2) in Hev by lia.
    rewrite Z.even_add in Hev. destruct (Z.even (p - 2)); [ reflexivity | discriminate ].
  - assert (0 < 2 ^ (p - 2)) as Ha by (apply Z.pow_pos_nonneg; lia).
    assert (0 < 2 ^ (60 - p)) as Hb by (apply Z.pow_pos_nonneg; lia).
    assert (2 ^ p = 4 * 2 ^ (p - 2)) as Ep.
    { change 4 with (2 ^ 2). rewrite <- Z.pow_add_r by lia. f_equal. lia. }
    assert (2 ^ 61 = 8 * 2 ^ (60 - p) * 2 ^ (p - 2)) as E61.
    { replace 61 with (3 + (60 - p) + (p - 2)) at 1 by lia.
      rewrite !Z.pow_add_r by lia. reflexivity. }
    rewrite E61. rewrite E, Ep, E61 in Hlt.
    set (a := 2 ^ (p - 2)) in *. set (b := 2 ^ (60 - p)) in *.
    assert (2 * m + 1 < 12 * b) as Hmb.
    { apply (Z.mul_lt_mono_pos_r a); [ assumption | ]. lia. }
    apply Z.le_lt_trans with ((8 * m + 7) * a); [ nia | ].
    apply Z.lt_le_trans with (8 * (m + 1) * a); [ nia | ].
    replace (6 * (8 * b * a)) with (8 * (6 * b) * a) by ring.
    apply Z.mul_le_mono_nonneg_r; lia.
Qed.

(** The identifier [getParent] builds. *)
Lemma parent_id (id m p : Z) :
  shape id m p -> p <= 58 ->
  Z.lor (Z.land id (Z.lnot (Z.shiftl (lsb id) 2) + 1)) (Z.shiftl (lsb id) 2)
  = (2 * (m / 4) + 1) * 2 ^ (p + 2).
Proof.
  intros (Hm & Hp & Hev & E & Hlt) Hp58.
  rewrite E at 2 3. rewrite Bits.lsb_odd_pow2 by lia.
  rewrite Z.shiftl_mul_pow2 by lia.
  replace (2 ^ p * 2 ^ 2) with (2 ^ (p + 2)) by (rewrite Z.pow_add_r by lia; reflexivity).
  rewrite land_opp_pow2 by lia.
  assert (id / 2 ^ (p + 2) = m / 2) as ->.
  { rewrite E, Z.pow_add_r by lia.
    rewrite <- Z.div_div by (try apply Z.pow_pos_nonneg; lia).
    rewrite Z_div_mult by (apply Z.lt_gt, Z.pow_pos_nonneg; lia).
    change (2 ^ 2) with 4.
    pose proof (Z.div_mod m 2 ltac:(lia)). pose proof (Z.mod_pos_bound m 2 ltac:(lia)).
    symmetry. apply Z.div_unique with (2 * (m mod 2) + 1); lia. }
  rewrite <- !Z.shiftl_mul_pow2 by lia.
  replace (2 ^ (p + 2)) with (Z.shiftl 1 (p + 2)) by (rewrite Z.shiftl_mul_pow2; lia).
  rewrite <- Z.shiftl_lor, lor_1.
  rewrite Z.div_div by lia. reflexivity.
Qed.

Lemma parent_shape (id m p : Z) :
  shape id m p -> p <= 58 ->
  shape ((2 * (m / 4) + 1) * 2 ^ (p + 2)) (m / 4) (p + 2).
Proof.
  intros (Hm & Hp & Hev & E & Hlt) Hp58.
  assert (0 <= m / 4) as Hq by (apply Z.div_pos; lia).
  unfold shape. repeat split; try lia.
  - rewrite Z.even_add, Hev. reflexivity.
  - assert (0 < 2 ^ p) as Ha by (apply Z.pow_pos_nonneg; lia).
    assert (0 < 2 ^ (59 - p)) as Hb by (apply Z.pow_pos_nonneg; lia).
    assert (2 ^ (p + 2) = 4 * 2 ^ p) as Ep.
    { rewrite Z.pow_add_r by lia. change (2 ^ 2) with 4. lia. }
    assert (2 ^ 61 = 4 * 2 ^ (59 - p) * 2 ^ p) as E61.
    { replace 61 with (2 + (59 - p) + p) at 1 by lia.
      rewrite !Z.pow_add_r by lia. reflexivity. }
    rewrite Ep, E61. rewrite E, E61 in Hlt.
    pose proof (Z.div_mod m 4 ltac:(lia)) as Em.
    pose proof (Z.mod_pos_bound m 4 ltac:(lia)) as Bm.
    set (a := 2 ^ p) in *. set (b := 2 ^ (59 - p)) in *. set (q := m / 4) in *.
    assert (2 * m + 1 < 24 * b) as Hmb.
    { apply (Z.mul_lt_mono_pos_r a); [ assumption | ]. lia. }
    assert (2 * q + 1 < 6 * b) as Hqb by lia.
    replace ((2 * q + 1) * (4 * a)) with (4 * (2 * q + 1) * a) by ring.
    replace (6 * (4 * b * a)) with (4 * (6 * b) * a) by ring.
    apply Z.mul_lt_mono_pos_r; lia.
Qed.

End Nav.

(** ** Cells *)

Module CellFacts.

Lemma even_half (p : Z) : Z.even p = true -> p = 2 * (p / 2).
Proof.
  intros Hev. apply Z.even_spec in Hev as [h ->].
  rewrite Z.mul_comm, Z_div_mult by lia. ring.
Qed.

Lemma S2Cell_new_shape (id m p : Z) :
  shape id m p -> S2Cell_new true id = Ok (mkS2Cell id (30 - p / 2)).
Proof.
  intros Hs. unfold S2Cell_new. cbn [negb].
  assert (isValidId id = true) as -> by (apply Valid.isValidId_shape; eauto).
  cbn [negb]. rewrite (Valid.getLevel_shape id m p Hs). reflexivity.
Qed.

Lemma S2Cell_new_inv (sb : bool) (id : Z) (c : S2Cell) :
  S2Cell_new sb id = Ok c ->
  sb = true /\ exists m p, shape id m p /\ c = mkS2Cell id (30 - p / 2).
Proof.
  unfold S2Cell_new. destruct sb; cbn [negb]; [ | discriminate ].
  destruct (isValidId id) eqn:Hv; cbn [negb]; [ | discriminate ].
  apply Valid.isValidId_shape in Hv as (m & p & Hs).
  rewrite (Valid.getLevel_shape id m p Hs). cbn [obind].
  intros [= <-]. split; [ reflexivity | ]. exists m, p. split; [ assumption | reflexivity ].
Qed.

(** [getChild] on a constructed cell below level 30. *)
Lemma getChild_shape (id m p i : Z) :
  shape id m p -> 2 <= p -> 0 <= i <= 3 ->
  getChild true i (mkS2Cell id (30 - p / 2))
  = (Ok (mkS2Cell ((2 * (4 * m + i) + 1) * 2 ^ (p - 2)) (30 - (p - 2) / 2)),
     mkS2Cell id (30 - p / 2)).
Proof.
  intros Hs Hp2 Hi. unfold getChild, bind, get, throw, lift. cbn [_level _cellId].
  destruct (Z.ltb_spec i 0); [ lia | ]. destruct (Z.gtb_spec i 3); [ lia | ]. cbn [orb].
  pose proof Hs as (_ & Hp & Hev & _). pose proof (even_half p Hev).
  destruct (Z.eqb_spec (30 - p / 2) 30); [ lia | ].
  rewrite (Nav.child_id id m p i) by assumption.
  rewrite (S2Cell_new_shape _ _ _ (Nav.child_shape id m p i Hs Hp2 Hi)). reflexivity.
Qed.

(** [getParent] on a constructed cell above level 0. *)
Lemma getParent_shape (id m p : Z) :
  shape id m p -> p <= 58 ->
  getParent true (mkS2Cell id (30 - p / 2))
  = (Ok (mkS2Cell ((2 * (m / 4) + 1) * 2 ^ (p + 2)) (30 - (p + 2) / 2)),
     mkS2Cell id (30 - p / 2)).
Proof.
  intros Hs Hp58. unfold getParent, bind, get, throw, lift. cbn [_level _cellId].
  pose proof Hs as (_ & Hp & Hev & _). pose proof (even_half p Hev).
  destruct (Z.eqb_spec (30 - p / 2) 0); [ lia | ].
  rewrite (Nav.parent_id id m p) by assumption.
  rewrite (S2Cell_new_shape _ _ _ (Nav.parent_shape id m p Hs Hp58)). reflexivity.
Qed.

Lemma half_pred (p : Z) : (p - 2) / 2 = p / 2 - 1.
Proof. replace (p - 2) with (p + (-1) * 2) by lia. rewrite Z_div_plus by lia. lia. Qed.

Lemma half_succ (p : Z) : (p + 2) / 2 = p / 2 + 1.
Proof. replace (p + 2) with (p + 1 * 2) by lia. rewrite Z_div_plus by lia. lia. Qed.

End CellFacts.

(** ** Tokens *)

Module Token.

Lemma hex_digit_is_hex (d : Z) : JS.is_hex_digit (JS.hex_digit d) = true.
Proof.
  unfold JS.hex_digit.
  destruct d as [| q | q]; try reflexivity.
  do 4 (destruct q as [q | q | ]; try reflexivity).
Qed.

Lemma digit_of_hex_digit (d : Z) :
  0 <= d < 16 -> HexString.ascii_to_digit (JS.hex_digit d) = Some (Z.to_N d).
Proof.
  intros Hd.
  assert (d = 0 \/ d = 1 \/ d = 2 \/ d = 3 \/ d = 4 \/ d = 5 \/ d = 6 \/ d = 7 \/
          d = 8 \/ d = 9 \/ d = 10 \/ d = 11 \/ d = 12 \/ d = 13 \/ d = 14 \/ d = 15)
    as Hcases by lia.
  repeat (destruct Hcases as [-> | Hcases]; [ reflexivity | ]).
  subst d. reflexivity.
Qed.

(** The digits that [hex_digits] puts before [acc] read back as [n]. *)
Lemma parse_hex_digits_of (fuel : nat) (n : Z) (acc : string) :
  0 <= n < 16 ^ Z.of_nat fuel ->
  JS.parse_hex_digits (JS.hex_digits fuel n acc) 0 = JS.parse_hex_digits acc n.
Proof.
  revert n acc. induction fuel as [| fuel IH]; intros n acc Hn.
  - cbn in Hn. cbn [JS.hex_digits]. replace n with 0 by lia. reflexivity.
  - cbn [JS.hex_digits].
    pose proof (Z.div_mod n 16 ltac:(lia)) as Ediv.
    pose proof (Z.mod_pos_bound n 16 ltac:(lia)) as Bmod.
    assert (forall a, JS.parse_hex_digits (String (JS.hex_digit (n mod 16)) acc) a
                      = JS.parse_hex_digits acc (16 * a + n mod 16)) as Hstep.
    { intros a. cbn [JS.parse_hex_digits]. rewrite digit_of_hex_digit by assumption.
      rewrite Z2N.id by lia. reflexivity. }
    destruct (Z.eqb_spec (n / 16) 0) as [E0 | Hne].
    + rewrite Hstep. f_equal. lia.
    + rewrite IH, Hstep.
      * f_equal. lia.
      * rewrite Nat2Z.inj_succ, Z.pow_succ_r in Hn by lia. lia.
Qed.

Lemma hex_digits_all_hex (fuel : nat) (n : Z) (acc : string) :
  JS.all_hex_digits acc = true -> JS.all_hex_digits (JS.hex_digits fuel n acc) = true.
Proof.
  revert n acc. induction fuel as [| fuel IH]; intros n acc Hacc; [ exact Hacc | ].
  cbn [JS.hex_digits].
  assert (JS.all_hex_digits (String (JS.hex_digit (n mod 16)) acc) = true) as Hacc'
    by (cbn [JS.all_hex_digits]; rewrite hex_digit_is_hex; exact Hacc).
  destruct (n / 16 =? 0); [ exact Hacc' | apply IH; exact Hacc' ].
Qed.

(** A number of exactly [k] digits is printed with [k] characters. *)
Lemma hex_digits_length (k fuel : nat) (n : Z) (acc : string) :
  (1 <= k <= fuel)%nat ->
  16 ^ (Z.of_nat k - 1) <= n < 16 ^ Z.of_nat k ->
  String.length (JS.hex_digits fuel n acc) = (k + String.length acc)%nat.
Proof.
  revert fuel n acc. induction k as [| k IH]; intros fuel n acc Hk Hn; [ lia | ].
  destruct fuel as [| fuel]; [ lia | ]. cbn [JS.hex_digits].
  pose proof (Z.div_mod n 16 ltac:(lia)) as Ediv.
  pose proof (Z.mod_pos_bound n 16 ltac:(lia)) as Bmod.
  rewrite Nat2Z.inj_succ, Z.pow_succ_r in Hn by lia.
  replace (Z.succ (Z.of_nat k) - 1) with (Z.of_nat k) in Hn by lia.
  destruct (Nat.eq_dec k 0) as [-> | Hk0].
  - cbn in Hn. destruct (Z.eqb_spec (n / 16) 0); [ reflexivity | lia ].
  - assert (16 ^ Z.of_nat k = 16 * 16 ^ (Z.of_nat k - 1)) as Epow.
    { rewrite <- Z.pow_succ_r by lia. f_equal. lia. }
    assert (0 < 16 ^ (Z.of_nat k - 1)) by (apply Z.pow_pos_nonneg; lia).
    destruct (Z.eqb_spec (n / 16) 0); [ lia | ].
    rewrite IH by lia. cbn [String.length]. lia.
Qed.

Lemma strip_trailing_zeros_pad (s : string) :
  (JS.strip_trailing_zeros s
   ++ JS.zeros (String.length s - String.length (JS.strip_trailing_zeros s)))%string = s.
Proof.
  induction s as [| c s IH]; [ reflexivity | ].
  cbn [JS.strip_trailing_zeros].
  destruct (JS.strip_trailing_zeros s) as [| c' t] eqn:Et.
  - cbn [String.length String.append] in IH. rewrite Nat.sub_0_r in IH.
    destruct (Ascii.eqb_spec c "0"%char) as [-> | Hc].
    + cbn [String.length String.append Nat.sub JS.zeros]. rewrite IH. reflexivity.
    + cbn [String.length String.append Nat.sub]. rewrite Nat.sub_0_r, IH. reflexivity.
  - cbn [String.length String.append Nat.sub] in *. rewrite IH. reflexivity.
Qed.

Lemma strip_trailing_zeros_length (s : string) :
  (String.length (JS.strip_trailing_zeros s) <= String.length s)%nat.
Proof.
  induction s as [| c s IH]; [ apply Nat.le_refl | ].
  cbn [JS.strip_trailing_zeros].
  destruct (JS.strip_trailing_zeros s) as [| c' t].
  - destruct (Ascii.eqb c "0"%char); cbn [String.length]; lia.
  - cbn [String.length] in *. lia.
Qed.

Lemma strip_trailing_zeros_all_hex (s : string) :
  JS.all_hex_digits s = true -> JS.all_hex_digits (JS.strip_trailing_zeros s) = true.
Proof.
  induction s as [| c s IH]; [ reflexivity | ].
  cbn [JS.all_hex_digits JS.strip_trailing_zeros]. intros H.
  apply andb_prop in H as [Hc Hs]. specialize (IH Hs).
  destruct (JS.strip_trailing_zeros s) as [| c' t].
  - destruct (Ascii.eqb c "0"%char); [ reflexivity | ].
    cbn [JS.all_hex_digits]. rewrite Hc. reflexivity.
  - change (JS.all_hex_digits (String c (String c' t)))
      with (JS.is_hex_digit c && JS.all_hex_digits (String c' t)).
    rewrite Hc, IH. reflexivity.
Qed.

Lemma hex_digit_not_white_space (c : ascii) :
  JS.is_hex_digit c = true -> JS.is_white_space c = false.
Proof.
  destruct c as [[] [] [] [] [] [] [] []]; cbv; intros H; try reflexivity; discriminate H.
Qed.

Lemma trim_end_all_hex (s : string) : JS.all_hex_digits s = true -> JS.trim_end s = s.
Proof.
  induction s as [| c s IH]; [ reflexivity | ].
  cbn [JS.all_hex_digits JS.trim_end]. intros H.
  apply andb_prop in H as [Hc Hs]. rewrite (IH Hs).
  destruct s; [ | reflexivity ].
  rewrite (hex_digit_not_white_space c Hc). reflexivity.
Qed.

(** What the round trip does hold on: the identifiers of sixteen
    hexadecimal digits, that is, from 2^60 up to 2^64. *)
Lemma round_trip_16_digits (id : Z) :
  2 ^ 60 <= id < 2 ^ 64 -> getIdFromToken (getTokenFromId id) = Ok id.
Proof.
  intros Hid. unfold getTokenFromId.
  destruct (Z.eqb_spec id 0); [ lia | ].
  unfold JS.BigInt_toString16. destruct (Z.ltb_spec id 0); [ lia | ].
  rewrite Z.abs_eq by lia.
  set (fuel := S (Z.to_nat (Z.log2 id))).
  set (s := JS.hex_digits fuel id "").
  assert (60 <= Z.log2 id) as Hlog by (apply Z.log2_le_pow2; lia).
  assert (Z.log2 id < 64) as Hlog' by (apply Z.log2_lt_pow2; lia).
  assert (String.length s = 16%nat) as Hlen.
  { unfold s. rewrite (hex_digits_length 16) by (unfold fuel; simpl; lia). reflexivity. }
  assert (JS.all_hex_digits s = true) as Hhex by (apply hex_digits_all_hex; reflexivity).
  assert (JS.parse_hex_digits s 0 = Some id) as Hparse.
  { unfold s. rewrite parse_hex_digits_of; [ reflexivity | ].
    split; [ lia | ].
    apply Z.lt_le_trans with (16 ^ 16); [ simpl; lia | ].
    apply Z.pow_le_mono_r; unfold fuel; lia. }
  pose proof (strip_trailing_zeros_length s) as Hle.
  pose proof (strip_trailing_zeros_all_hex s Hhex) as Hthex.
  pose proof (strip_trailing_zeros_pad s) as Hpad.
  set (token := JS.strip_trailing_zeros s) in *.
  unfold getIdFromToken.
  destruct (String.eqb_spec token "X") as [EX | _].
  { rewrite EX in Hthex. discriminate Hthex. }
  unfold JS.repeat0.
  destruct (Z.ltb_spec (16 - Z.of_nat (String.length token)) 0); [ lia | ].
  cbn [obind].
  replace (Z.to_nat (16 - Z.of_nat (String.length token)))
    with (String.length s - String.length token)%nat by lia.
  rewrite Hpad. unfold JS.BigInt_of_hex.
  rewrite (trim_end_all_hex s Hhex).
  clearbody token. clearbody s.
  destruct s as [| c s']; [ discriminate Hlen | ].
  rewrite Hparse. reflexivity.
Qed.

End Token.

(** ** Termination and the generated tables *)

(** [getLevel] never runs out of fuel: it returns on the valid
    identifiers and throws on the others. *)
Lemma getLevel_total (id : Z) :
  (isValidId id = true /\ exists level, getLevel id = Ok level) \/
  (isValidId id = false /\ getLevel id = Throw (DeveloperError None)).
Proof.
  destruct (isValidId id) eqn:Hv.
  - left. split; [ reflexivity | ].
    apply Valid.isValidId_shape in Hv as (m & p & Hs).
    eexists. apply (Valid.getLevel_shape id m p Hs).
  - right. split; [ reflexivity | ]. unfold getLevel. rewrite Hv. reflexivity.
Qed.

(** A second generation rewrites the same entries with the same values. *)
Lemma generateLookupTable_again :
  generateLookupTable generated_tables = (Ok tt, generated_tables).
Proof. vm_compute. reflexivity. Qed.

(** Once the tables are there the decoder does not rebuild them. *)
Lemma getFaceIJOrientation_keeps_tables (cellId : Z) (orientation : JS.value) :
  snd (getFaceIJOrientation cellId orientation generated_tables) = generated_tables.
Proof.
  unfold getFaceIJOrientation, bind, get, ret.
  change (JS.array_length (S2LookupPositions generated_tables) =? 0) with false.
  cbv beta iota.
  destruct (fold_left (getFaceIJOrientation_step _ cellId) _ _) as [[i j] bits].
  reflexivity.
Qed.

Lemma generated_tables_inverse_on_keys :
  forallb (fun n => inverse_on_key generated_tables (Z.of_nat n)) (seq 0 1024) = true.
Proof. vm_compute. reflexivity. Qed.

(** * The properties of the specification *)

(** C1. The identifier 1 (a valid leaf cell of face 0) does not survive
    the round trip: [getTokenFromId] prints it without its fifteen
    leading zero digits, as "1", and [getIdFromToken] pads "1" on the
    right, which gives 0x1000000000000000, the root cell of face 0.  The
    token of the identifier 0 is "X". *)
Theorem token_round_trip_at_1 :
  isValidId 1 = true /\
  getTokenFromId 1 = "1"%string /\
  getIdFromToken (getTokenFromId 1) = Ok 0x1000000000000000 /\
  getTokenFromId 0x1000000000000000 = "1"%string /\
  getTokenFromId 0 = "X"%string /\
  getIdFromToken (getTokenFromId 0) = Ok 0.
Proof. repeat split. Qed.

(** C2. For a valid cell [c] of level below 30 and an index [i] in
    0..3, [getChild] succeeds, [getParent] succeeds on the child, and the
    cell it yields has the identifier (and the level) of [c]; neither
    call changes its receiver. *)
Theorem getParent_getChild (sb : bool) (id : Z) (c : S2Cell) (i : Z) :
  S2Cell_new sb id = Ok c ->
  _level c < 30 ->
  0 <= i <= 3 ->
  exists child parent,
    getChild sb i c = (Ok child, c) /\
    getParent sb child = (Ok parent, child) /\
    _cellId parent = _cellId c /\ _level parent = _level c.
Proof.
  intros Hnew Hlevel Hi.
  apply CellFacts.S2Cell_new_inv in Hnew as (-> & m & p & Hs & ->).
  cbn [_level _cellId] in *.
  pose proof Hs as (_ & Hp & Hev & E & _). pose proof (CellFacts.even_half p Hev) as Hhalf.
  assert (2 <= p) as Hp2 by lia.
  pose proof (Nav.child_shape id m p i Hs Hp2 Hi) as Hcs.
  eexists. eexists.
  rewrite (CellFacts.getChild_shape id m p i Hs Hp2 Hi).
  split; [ reflexivity | ].
  rewrite (CellFacts.getParent_shape _ _ _ Hcs) by lia.
  split; [ reflexivity | ].
  cbn [_level _cellId].
  replace (p - 2 + 2) with p by lia.
  replace ((4 * m + i) / 4) with m by (apply Z.div_unique with i; lia).
  split; [ symmetry; exact E | reflexivity ].
Qed.

Lemma getParent_getChild_witness :
  exists child parent,
    getChild true 2 (mkS2Cell 0x3000000000000000 0) = (Ok child, mkS2Cell 0x3000000000000000 0) /\
    getParent true child = (Ok parent, child) /\
    _cellId parent = 0x3000000000000000 /\ _level parent = 0.
Proof.
  apply (getParent_getChild true 0x3000000000000000 (mkS2Cell 0x3000000000000000 0) 2).
  - reflexivity.
  - simpl. lia.
  - lia.
Defined.

(** C3. [isValidId] answers [true] exactly when the identifier is
    positive, its face bits (the identifier shifted right by 61) are at
    most 5, and its lowest set bit sits on a set bit of the mask
    0x1555555555555555; in every other case it answers [false]. *)
Theorem isValidId_spec (id : Z) :
  isValidId id = true <->
  0 < id /\ Z.shiftr id 61 <= 5 /\
  exists p, lowest_set_bit_at id p /\ Z.testbit 0x1555555555555555 p = true.
Proof.
  rewrite Valid.isValidId_shape. split.
  - intros (m & p & Hm & Hp & Hev & E & Hlt).
    assert (0 < 2 ^ p) by (apply Z.pow_pos_nonneg; lia).
    split; [ nia | ]. split; [ apply Valid.face_bits_le; assumption | ].
    exists p. split; [ rewrite E; apply Bits.lowest_set_bit_odd_pow2; lia | ].
    rewrite Bits.mask_bits by lia. unfold level_marker_position. rewrite Hev.
    destruct (Z.leb_spec 0 p); [ | lia ]. destruct (Z.leb_spec p 60); [ | lia ]. reflexivity.
  - intros (Hpos & Hface & p & Hlow & Hbit).
    destruct (Bits.odd_pow2_decomposition id Hpos) as (m & p' & Hm & Hp' & E).
    assert (p = p') as <-.
    { apply (Bits.lowest_set_bit_unique id); [ assumption | ].
      rewrite E. apply Bits.lowest_set_bit_odd_pow2. assumption. }
    rewrite Bits.mask_bits in Hbit by assumption.
    unfold level_marker_position in Hbit.
    apply andb_prop in Hbit as [Hbit Hle]. apply andb_prop in Hbit as [Hev _].
    apply Z.leb_le in Hle.
    exists m, p. unfold shape. repeat split; try assumption.
    apply Valid.face_bits_le. assumption.
Qed.

(** C4. On a valid identifier whose lowest set bit is at position [p],
    [getLevel] returns 30 minus half of [p]; that level lies in 0..30, it
    is 0 exactly when [p] is 60 and 30 exactly when [p] is 0. *)
Theorem getLevel_spec (id p : Z) :
  isValidId id = true ->
  lowest_set_bit_at id p ->
  getLevel id = Ok (30 - p / 2) /\
  0 <= 30 - p / 2 <= 30 /\
  (p = 60 <-> getLevel id = Ok 0) /\
  (p = 0 <-> getLevel id = Ok 30).
Proof.
  intros Hvalid Hlow.
  apply Valid.isValidId_shape in Hvalid as (m & p' & Hs).
  pose proof Hs as (Hm & Hp & Hev & E & Hlt).
  assert (p = p') as <-.
  { apply (Bits.lowest_set_bit_unique id); [ assumption | ].
    rewrite E. apply Bits.lowest_set_bit_odd_pow2. lia. }
  pose proof (CellFacts.even_half p Hev) as Hhalf.
  rewrite (Valid.getLevel_shape id m p Hs).
  split; [ reflexivity | ]. split; [ lia | ].
  split; (split; [ intros ->; reflexivity | intros H; apply Ok_inj in H; lia ]).
Qed.

Lemma getLevel_spec_witness :
  getLevel 0x3000000000000000 = Ok (30 - 60 / 2) /\
  0 <= 30 - 60 / 2 <= 30 /\
  (60 = 60 <-> getLevel 0x3000000000000000 = Ok 0) /\
  (60 = 0 <-> getLevel 0x3000000000000000 = Ok 30).
Proof.
  apply (getLevel_spec 0x3000000000000000 60).
  - reflexivity.
  - split; [ lia | split; [ reflexivity | ] ].
    intros q Hq.
    change 0x3000000000000000 with ((2 * 1 + 1) * 2 ^ 60).
    rewrite Bits.testbit_odd_pow2 by lia.
    destruct (Z.ltb_spec q 60); [ reflexivity | lia ].
Defined.

(** C5. For a valid cell [c]: when its level is above 0, the identifier
    of [getParent(c)] has level [level(c) - 1]; when its level is below
    30, the identifier of [getChild(c, 0)] has level [level(c) + 1]. *)
Theorem getLevel_navigation (sb : bool) (id : Z) (c : S2Cell) :
  S2Cell_new sb id = Ok c ->
  getLevel (_cellId c) = Ok (_level c) /\
  (0 < _level c ->
   exists parent, getParent sb c = (Ok parent, c) /\
                  getLevel (_cellId parent) = Ok (_level c - 1)) /\
  (_level c < 30 ->
   exists child, getChild sb 0 c = (Ok child, c) /\
                 getLevel (_cellId child) = Ok (_level c + 1)).
Proof.
  intros Hnew.
  apply CellFacts.S2Cell_new_inv in Hnew as (-> & m & p & Hs & ->).
  cbn [_level _cellId].
  pose proof Hs as (_ & Hp & Hev & _). pose proof (CellFacts.even_half p Hev) as Hhalf.
  split; [ apply (Valid.getLevel_shape id m p Hs) | ]. split.
  - intros Hlevel. assert (p <= 58) as Hp58 by lia.
    eexists. rewrite (CellFacts.getParent_shape id m p Hs Hp58).
    split; [ reflexivity | ]. cbn [_cellId].
    rewrite (Valid.getLevel_shape _ _ _ (Nav.parent_shape id m p Hs Hp58)).
    rewrite CellFacts.half_succ. f_equal. lia.
  - intros Hlevel. assert (2 <= p) as Hp2 by lia.
    assert (0 <= 0 <= 3) as H0 by lia.
    eexists. rewrite (CellFacts.getChild_shape id m p 0 Hs Hp2 H0).
    split; [ reflexivity | ]. cbn [_cellId].
    rewrite (Valid.getLevel_shape _ _ _ (Nav.child_shape id m p 0 Hs Hp2 H0)).
    rewrite CellFacts.half_pred. f_equal. lia.
Qed.

Lemma getLevel_navigation_witness :
  getLevel 0x410 = Ok 28 /\
  (exists parent, getParent true (mkS2Cell 0x410 28) = (Ok parent, mkS2Cell 0x410 28) /\
                  getLevel (_cellId parent) = Ok (28 - 1)) /\
  (exists child, getChild true 0 (mkS2Cell 0x410 28) = (Ok child, mkS2Cell 0x410 28) /\
                 getLevel (_cellId child) = Ok (28 + 1)).
Proof.
  destruct (getLevel_navigation true 0x410 (mkS2Cell 0x410 28) eq_refl)
    as (Hlevel & Hparent & Hchild).
  split; [ exact Hlevel | ].
  split; [ apply Hparent | apply Hchild ]; simpl; lia.
Defined.

(** C6. At the valid identifier 0x410 (level 28) the decoder gives
    [I = 8], [J = 0] on face 0, and [I] and bit 2 of the identifier have
    the same parity, yet [getFaceSiTi] takes [delta = 2] and returns
    (0, 18, 2): its test is [i ^ (Number(cellId >> 2n) & 1)], which is
    nonzero as soon as [i] has any bit set above bit 0. *)
Theorem getFaceSiTi_at_0x410 :
  isValidId 0x410 = true /\
  getLevel 0x410 = Ok 28 /\
  fst (getFaceIJOrientation 0x410 JS.Undefined initial_tables)
  = Ok (JS.Int 8, JS.Int 0, 0, JS.Undefined) /\
  Z.land (Z.lxor 8 (Z.shiftr 0x410 2)) 1 = 0 /\
  fst (getFaceSiTi 0x410 initial_tables) = Ok (0, JS.Int 18, JS.Int 2).
Proof. repeat split; vm_compute; reflexivity. Qed.

(** C7. The generation, run on the empty tables, fills the 1024 entries
    of [S2LookupIJ] but only the entries 0 to 3 of [S2LookupPositions]:
    [r] is read from [S2PosToOrientationMask], so [r[0]] .. [r[3]] are
    [undefined], [i] and [j] stay 0 and every forward write lands on a
    key below 4. *)
Theorem generateLookupTable_forward_entries :
  generateLookupTable initial_tables = (Ok tt, generated_tables) /\
  JS.array_length (S2LookupIJ generated_tables) = 1024 /\
  JS.array_length (S2LookupPositions generated_tables) = 4 /\
  forall key, 4 <= key -> JS.array_get (S2LookupPositions generated_tables) key = JS.Undefined.
Proof.
  split; [ vm_compute; reflexivity | ].
  split; [ vm_compute; reflexivity | ].
  split; [ vm_compute; reflexivity | ].
  intros key Hkey. unfold JS.array_get.
  destruct (Z.ltb_spec key 0); [ reflexivity | ].
  replace (nth_error (S2LookupPositions generated_tables) (Z.to_nat key)) with (@None (option Z));
    [ reflexivity | ].
  symmetry. apply nth_error_None. change (4 <= Z.to_nat key)%nat. lia.
Qed.

(** C8. [getChild] on a cell of level 30 (with an index in 0..3) throws
    the error "cannot get child of leaf cell."; [getParent] on a cell of
    level 0 throws "cannot get parent of root cell."; [getChild] with an
    index outside 0..3, 4 and -1 among them, throws "child index must be
    in the range [0-3]."  All three are [DeveloperError]s, told apart by
    their message, and each call leaves its receiver as it was. *)
Theorem navigation_errors (sb : bool) (c : S2Cell) :
  (forall i, 0 <= i <= 3 -> _level c = 30 ->
     getChild sb i c
     = (Throw (DeveloperError (Some "cannot get child of leaf cell."%string)), c)) /\
  (_level c = 0 ->
     getParent sb c
     = (Throw (DeveloperError (Some "cannot get parent of root cell."%string)), c)) /\
  (forall i, i < 0 \/ 3 < i ->
     getChild sb i c
     = (Throw (DeveloperError (Some "child index must be in the range [0-3]."%string)), c)) /\
  getChild sb 4 c
  = (Throw (DeveloperError (Some "child index must be in the range [0-3]."%string)), c) /\
  getChild sb (-1) c
  = (Throw (DeveloperError (Some "child index must be in the range [0-3]."%string)), c).
Proof.
  assert (forall i, i < 0 \/ 3 < i ->
            getChild sb i c
            = (Throw (DeveloperError (Some "child index must be in the range [0-3]."%string)), c))
    as Hindex.
  { intros i Hi. unfold getChild, bind, get, throw.
    destruct (Z.ltb_spec i 0); [ reflexivity | ].
    destruct (Z.gtb_spec i 3); [ reflexivity | lia ]. }
  split; [ | split; [ | split; [ exact Hindex | split; apply Hindex; lia ] ] ].
  - intros i Hi Hlevel. unfold getChild, bind, get, throw.
    destruct (Z.ltb_spec i 0); [ lia | ]. destruct (Z.gtb_spec i 3); [ lia | ].
    rewrite Hlevel. reflexivity.
  - intros Hlevel. unfold getParent, bind, get, throw. rewrite Hlevel. reflexivity.
Qed.

Lemma navigation_errors_witness :
  getChild true 0 (mkS2Cell 1 30)
  = (Throw (DeveloperError (Some "cannot get child of leaf cell."%string)), mkS2Cell 1 30) /\
  getParent true (mkS2Cell 0x1000000000000000 0)
  = (Throw (DeveloperError (Some "cannot get parent of root cell."%string)),
     mkS2Cell 0x1000000000000000 0) /\
  getChild true 7 (mkS2Cell 0x410 28)
  = (Throw (DeveloperError (Some "child index must be in the range [0-3]."%string)),
     mkS2Cell 0x410 28).
Proof.
  split; [ | split ].
  - apply (proj1 (navigation_errors true (mkS2Cell 1 30)) 0); [ lia | reflexivity ].
  - apply (proj1 (proj2 (navigation_errors true (mkS2Cell 0x1000000000000000 0)))). reflexivity.
  - apply (proj1 (proj2 (proj2 (navigation_errors true (mkS2Cell 0x410 28)))) 7). lia.
Defined.

(** C9. [FaceUVtoXYZ] returns, for the faces 0 to 5 in turn, the vectors
    (1,u,v), (-u,1,v), (-u,-v,1), (-1,-v,-u), (v,-1,-u) and (v,u,-1). *)
Theorem FaceUVtoXYZ_faces (u v : float) :
  FaceUVtoXYZ 0 u v = mkCartesian3 1 u v /\
  FaceUVtoXYZ 1 u v = mkCartesian3 (- u) 1 v /\
  FaceUVtoXYZ 2 u v = mkCartesian3 (- u) (- v) 1 /\
  FaceUVtoXYZ 3 u v = mkCartesian3 (- 1) (- v) (- u) /\
  FaceUVtoXYZ 4 u v = mkCartesian3 v (- 1) (- u) /\
  FaceUVtoXYZ 5 u v = mkCartesian3 v u (- 1).
Proof. repeat split. Qed.

(** C10. Navigation keeps identifiers valid: on a valid cell, [getChild]
    (any index in 0..3, level below 30) and [getParent] (level above 0)
    get through the constructor's validation and return a cell whose
    identifier satisfies [isValidId]. *)
Theorem navigation_preserves_validity (sb : bool) (id : Z) (c : S2Cell) :
  S2Cell_new sb id = Ok c ->
  isValidId (_cellId c) = true /\
  (forall i, 0 <= i <= 3 -> _level c < 30 ->
     exists child, getChild sb i c = (Ok child, c) /\ isValidId (_cellId child) = true) /\
  (0 < _level c ->
     exists parent, getParent sb c = (Ok parent, c) /\ isValidId (_cellId parent) = true).
Proof.
  intros Hnew.
  apply CellFacts.S2Cell_new_inv in Hnew as (-> & m & p & Hs & ->).
  cbn [_level _cellId].
  pose proof Hs as (_ & Hp & Hev & _). pose proof (CellFacts.even_half p Hev) as Hhalf.
  split; [ apply Valid.isValidId_shape; eauto | ]. split.
  - intros i Hi Hlevel. assert (2 <= p) as Hp2 by lia.
    eexists. rewrite (CellFacts.getChild_shape id m p i Hs Hp2 Hi).
    split; [ reflexivity | ]. cbn [_cellId].
    apply Valid.isValidId_shape. do 2 eexists. apply (Nav.child_shape id m p i Hs Hp2 Hi).
  - intros Hlevel. assert (p <= 58) as Hp58 by lia.
    eexists. rewrite (CellFacts.getParent_shape id m p Hs Hp58).
    split; [ reflexivity | ]. cbn [_cellId].
    apply Valid.isValidId_shape. do 2 eexists. apply (Nav.parent_shape id m p Hs Hp58).
Qed.

Lemma navigation_preserves_validity_witness :
  isValidId 0x89c25c = true /\
  (exists child, getChild true 3 (mkS2Cell 0x89c25c 29) = (Ok child, mkS2Cell 0x89c25c 29)
                 /\ isValidId (_cellId child) = true) /\
  (exists parent, getParent true (mkS2Cell 0x89c25c 29) = (Ok parent, mkS2Cell 0x89c25c 29)
                  /\ isValidId (_cellId parent) = true).
Proof.
  destruct (navigation_preserves_validity true 0x89c25c (mkS2Cell 0x89c25c 29) eq_refl)
    as (Hvalid & Hchild & Hparent).
  split; [ exact Hvalid | ].
  split; [ apply Hchild | apply Hparent ]; simpl; lia.
Defined.

(** * Further properties of the code *)

(** ** Tokens: padding, parsing and printing *)

Module Codec.

Lemma parse_zeros (k : nat) (a : Z) :
  JS.parse_hex_digits (JS.zeros k) a = Some (a * 16 ^ Z.of_nat k).
Proof.
  revert a. induction k as [| k IH]; intros a.
  - cbn. f_equal. lia.
  - cbn [JS.zeros JS.parse_hex_digits].
    change (HexString.ascii_to_digit "0") with (Some 0%N). cbv iota.
    rewrite IH, Nat2Z.inj_succ, Z.pow_succ_r by lia. f_equal. cbn [Z.of_N]. ring.
Qed.

Lemma parse_app_zeros (s : string) (k : nat) (a : Z) :
  JS.parse_hex_digits (s ++ JS.zeros k) a
  = option_map (fun v => v * 16 ^ Z.of_nat k) (JS.parse_hex_digits s a).
Proof.
  revert a. induction s as [| c s IH]; intros a.
  - cbn [String.append JS.parse_hex_digits option_map]. apply parse_zeros.
  - cbn [String.append JS.parse_hex_digits].
    destruct (HexString.ascii_to_digit c); [ apply IH | reflexivity ].
Qed.

Lemma parse_all_hex (s : string) (a v : Z) :
  JS.parse_hex_digits s a = Some v -> JS.all_hex_digits s = true.
Proof.
  revert a. induction s as [| c s IH]; intros a; [ reflexivity | ].
  cbn [JS.parse_hex_digits JS.all_hex_digits]. unfold JS.is_hex_digit.
  destruct (HexString.ascii_to_digit c); [ | discriminate ].
  intros H. rewrite (IH _ H). reflexivity.
Qed.

Lemma all_hex_parse (s : string) (a : Z) :
  JS.all_hex_digits s = true -> exists v, JS.parse_hex_digits s a = Some v.
Proof.
  revert a. induction s as [| c s IH]; intros a; [ intros _; exists a; reflexivity | ].
  cbn [JS.parse_hex_digits JS.all_hex_digits]. unfold JS.is_hex_digit.
  destruct (HexString.ascii_to_digit c); [ | discriminate ].
  intros H. apply IH. exact H.
Qed.

Lemma parse_nonneg (s : string) (a v : Z) :
  0 <= a -> JS.parse_hex_digits s a = Some v -> a * 16 ^ Z.of_nat (String.length s) <= v.
Proof.
  revert a. induction s as [| c s IH]; intros a Ha.
  - cbn. intros [= <-]. lia.
  - cbn [JS.parse_hex_digits String.length].
    destruct (HexString.ascii_to_digit c) as [d |]; [ | discriminate ].
    intros H. apply IH in H; [ | lia ].
    rewrite Nat2Z.inj_succ, Z.pow_succ_r by lia.
    assert (0 < 16 ^ Z.of_nat (String.length s)) by (apply Z.pow_pos_nonneg; lia).
    nia.
Qed.

Lemma all_hex_app_zeros (s : string) (k : nat) :
  JS.all_hex_digits s = true -> JS.all_hex_digits (s ++ JS.zeros k) = true.
Proof.
  intros Hs. induction s as [| c s IH].
  - cbn [String.append]. induction k as [| k IHk]; [ reflexivity | exact IHk ].
  - cbn [String.append JS.all_hex_digits] in *.
    apply andb_prop in Hs as [Hc Hs]. rewrite Hc, (IH Hs). reflexivity.
Qed.

Lemma length_app_zeros (s : string) (k : nat) :
  String.length (s ++ JS.zeros k) = (String.length s + k)%nat.
Proof.
  induction s as [| c s IH].
  - cbn [String.append String.length]. induction k as [| k IHk]; [ reflexivity | ].
    cbn [JS.zeros String.length]. rewrite IHk. reflexivity.
  - cbn [String.append String.length]. rewrite IH. reflexivity.
Qed.

Lemma all_hex_not_X (s : string) : JS.all_hex_digits s = true -> String.eqb s "X" = false.
Proof.
  intros Hs. destruct (String.eqb_spec s "X") as [-> | _]; [ discriminate Hs | reflexivity ].
Qed.

(** [BigInt("0x" + s + "0".repeat(k))] for hexadecimal digits [s]. *)
Lemma BigInt_of_hex_padded (s : string) (k : nat) (v : Z) :
  JS.parse_hex_digits s 0 = Some v ->
  (0 < String.length s + k)%nat ->
  JS.BigInt_of_hex (s ++ JS.zeros k) = Ok (v * 16 ^ Z.of_nat k).
Proof.
  intros Hparse Hlen. unfold JS.BigInt_of_hex.
  rewrite Token.trim_end_all_hex
    by (apply all_hex_app_zeros, (parse_all_hex s 0 v), Hparse).
  pose proof (parse_app_zeros s k 0) as Hp. rewrite Hparse in Hp. cbn [option_map] in Hp.
  pose proof (length_app_zeros s k) as Hl.
  destruct (s ++ JS.zeros k)%string as [| c t]; [ cbn in Hl; lia | ].
  rewrite Hp. reflexivity.
Qed.

(** [getIdFromToken] on a token of at most sixteen hexadecimal digits. *)
Lemma getIdFromToken_hex (token : string) (v : Z) :
  JS.parse_hex_digits token 0 = Some v ->
  (String.length token <= 16)%nat ->
  getIdFromToken token = Ok (v * 16 ^ (16 - Z.of_nat (String.length token))).
Proof.
  intros Hparse Hlen. unfold getIdFromToken.
  rewrite (all_hex_not_X token (parse_all_hex token 0 v Hparse)).
  unfold JS.repeat0.
  destruct (Z.ltb_spec (16 - Z.of_nat (String.length token)) 0); [ lia | ].
  cbn [obind]. rewrite (BigInt_of_hex_padded token _ v Hparse) by lia.
  rewrite Z2Nat.id by lia. reflexivity.
Qed.

End Codec.

Module Printing.

(** The number of hexadecimal digits of a positive integer. *)
Lemma digit_count (id : Z) :
  0 < id ->
  exists k : nat, (1 <= k <= S (Z.to_nat (Z.log2 id)))%nat /\
                  16 ^ (Z.of_nat k - 1) <= id < 16 ^ Z.of_nat k.
Proof.
  intros Hid.
  pose proof (Z.log2_spec id Hid) as [Hlo Hhi].
  pose proof (Z.log2_nonneg id) as Hl.
  set (l := Z.log2 id) in *.
  pose proof (Z.div_mod l 4 ltac:(lia)) as Ediv.
  pose proof (Z.mod_pos_bound l 4 ltac:(lia)) as Bmod.
  exists (S (Z.to_nat (l / 4))).
  assert (0 <= l / 4) as Hq by (apply Z.div_pos; lia).
  split; [ lia | ].
  rewrite Nat2Z.inj_succ, Z2Nat.id by assumption.
  replace (Z.succ (l / 4) - 1) with (l / 4) by lia.
  change 16 with (2 ^ 4). rewrite <- !Z.pow_mul_r by lia.
  split.
  - apply Z.le_trans with (2 ^ l); [ apply Z.pow_le_mono_r; lia | assumption ].
  - apply Z.lt_le_trans with (2 ^ Z.succ l); [ assumption | apply Z.pow_le_mono_r; lia ].
Qed.

Lemma hex_digit_lower (d : Z) : 0 <= d < 16 -> is_lower_hex_digit (JS.hex_digit d) = true.
Proof.
  intros Hd. unfold is_lower_hex_digit.
  rewrite Token.digit_of_hex_digit, Z2N.id by lia. apply Ascii.eqb_refl.
Qed.

Lemma hex_digits_lower (fuel : nat) (n : Z) (acc : string) :
  all_lower_hex_digits acc = true -> all_lower_hex_digits (JS.hex_digits fuel n acc) = true.
Proof.
  revert n acc. induction fuel as [| fuel IH]; intros n acc Hacc; [ exact Hacc | ].
  cbn [JS.hex_digits].
  assert (all_lower_hex_digits (String (JS.hex_digit (n mod 16)) acc) = true) as Hacc'.
  { cbn [all_lower_hex_digits].
    rewrite hex_digit_lower by (apply Z.mod_pos_bound; lia). exact Hacc. }
  destruct (n / 16 =? 0); [ exact Hacc' | apply IH; exact Hacc' ].
Qed.

(** The first digit printed for a positive integer is not "0". *)
Lemma hex_digits_lead (fuel : nat) (n : Z) (acc : string) :
  0 < n < 16 ^ Z.of_nat fuel ->
  exists c rest, JS.hex_digits fuel n acc = String c rest /\ c <> "0"%char.
Proof.
  revert n acc. induction fuel as [| fuel IH]; intros n acc Hn; [ cbn in Hn; lia | ].
  cbn [JS.hex_digits].
  pose proof (Z.div_mod n 16 ltac:(lia)) as Ediv.
  pose proof (Z.mod_pos_bound n 16 ltac:(lia)) as Bmod.
  rewrite Nat2Z.inj_succ, Z.pow_succ_r in Hn by lia.
  destruct (Z.eqb_spec (n / 16) 0) as [E0 | Hne].
  - exists (JS.hex_digit (n mod 16)), acc. split; [ reflexivity | ].
    assert (n mod 16 = 1 \/ n mod 16 = 2 \/ n mod 16 = 3 \/ n mod 16 = 4 \/ n mod 16 = 5 \/
            n mod 16 = 6 \/ n mod 16 = 7 \/ n mod 16 = 8 \/ n mod 16 = 9 \/ n mod 16 = 10 \/
            n mod 16 = 11 \/ n mod 16 = 12 \/ n mod 16 = 13 \/ n mod 16 = 14 \/ n mod 16 = 15)
      as Hcases by lia.
    repeat (destruct Hcases as [-> | Hcases]; [ discriminate | ]).
    rewrite Hcases. discriminate.
  - apply IH.
    assert (0 <= n / 16) by (apply Z.div_pos; lia). lia.
Qed.

Lemma strip_lead (c : ascii) (rest : string) :
  c <> "0"%char ->
  exists t, JS.strip_trailing_zeros (String c rest) = String c t.
Proof.
  intros Hc. cbn [JS.strip_trailing_zeros].
  destruct (JS.strip_trailing_zeros rest) as [| c' t'].
  - destruct (Ascii.eqb_spec c "0"%char); [ contradiction | eexists; reflexivity ].
  - eexists; reflexivity.
Qed.

Lemma strip_zeros (k : nat) : JS.strip_trailing_zeros (JS.zeros k) = EmptyString.
Proof.
  induction k as [| k IH]; [ reflexivity | ].
  cbn [JS.zeros JS.strip_trailing_zeros]. rewrite IH. reflexivity.
Qed.

Lemma strip_app_zeros (s : string) (k : nat) :
  JS.strip_trailing_zeros (s ++ JS.zeros k) = JS.strip_trailing_zeros s.
Proof.
  induction s as [| c s IH].
  - cbn [String.append]. apply strip_zeros.
  - cbn [String.append JS.strip_trailing_zeros]. rewrite IH. reflexivity.
Qed.

Lemma strip_idempotent (s : string) :
  JS.strip_trailing_zeros (JS.strip_trailing_zeros s) = JS.strip_trailing_zeros s.
Proof.
  rewrite <- (Token.strip_trailing_zeros_pad s) at 2.
  rewrite strip_app_zeros. reflexivity.
Qed.

Lemma strip_lower (s : string) :
  all_lower_hex_digits s = true -> all_lower_hex_digits (JS.strip_trailing_zeros s) = true.
Proof.
  induction s as [| c s IH]; [ reflexivity | ].
  cbn [all_lower_hex_digits JS.strip_trailing_zeros]. intros H.
  apply andb_prop in H as [Hc Hs]. specialize (IH Hs).
  destruct (JS.strip_trailing_zeros s) as [| c' t].
  - destruct (Ascii.eqb c "0"%char); [ reflexivity | ].
    cbn [all_lower_hex_digits]. rewrite Hc. reflexivity.
  - change (all_lower_hex_digits (String c (String c' t)))
      with (is_lower_hex_digit c && all_lower_hex_digits (String c' t)).
    rewrite Hc, IH. reflexivity.
Qed.

Lemma lower_is_hex (s : string) :
  all_lower_hex_digits s = true -> JS.all_hex_digits s = true.
Proof.
  induction s as [| c s IH]; [ reflexivity | ].
  cbn [all_lower_hex_digits JS.all_hex_digits]. intros H.
  apply andb_prop in H as [Hc Hs]. rewrite (IH Hs), andb_true_r.
  unfold is_lower_hex_digit in Hc. unfold JS.is_hex_digit.
  destruct (HexString.ascii_to_digit c); [ reflexivity | discriminate ].
Qed.

Lemma lower_app_zeros (s : string) (k : nat) :
  all_lower_hex_digits s = true -> all_lower_hex_digits (s ++ JS.zeros k) = true.
Proof.
  intros Hs. induction s as [| c s IH].
  - cbn [String.append]. induction k as [| k IHk]; [ reflexivity | exact IHk ].
  - cbn [String.append all_lower_hex_digits] in *.
    apply andb_prop in Hs as [Hc Hs]. rewrite Hc, (IH Hs). reflexivity.
Qed.

Lemma digit_bound (c : ascii) (d : N) :
  HexString.ascii_to_digit c = Some d -> 0 <= Z.of_N d < 16.
Proof.
  unfold HexString.ascii_to_digit.
  repeat (match goal with
          | |- context [if ?b then _ else _] => destruct b
          end; [ intros [= <-]; cbn; lia | ]).
  discriminate.
Qed.

(** Printing the value of lowercase digits that follow a nonzero prefix
    value [a] prints the digits of [a] and then those digits. *)
Lemma hex_digits_parse (s : string) (a v : Z) (acc : string) (fuel : nat) :
  0 < a ->
  all_lower_hex_digits s = true ->
  JS.parse_hex_digits s a = Some v ->
  JS.hex_digits (fuel + String.length s) v acc = JS.hex_digits fuel a (s ++ acc).
Proof.
  revert a acc fuel. induction s as [| c s IH]; intros a acc fuel Ha Hlow Hparse.
  - cbn in Hparse. injection Hparse as <-. cbn [String.length String.append].
    rewrite Nat.add_0_r. reflexivity.
  - cbn [all_lower_hex_digits] in Hlow. apply andb_prop in Hlow as [Hc Hs].
    cbn [JS.parse_hex_digits] in Hparse. unfold is_lower_hex_digit in Hc.
    destruct (HexString.ascii_to_digit c) as [d |] eqn:Ed; [ | discriminate ].
    pose proof (digit_bound c d Ed) as Hd.
    apply Ascii.eqb_eq in Hc.
    cbn [String.length String.append].
    replace (fuel + S (String.length s))%nat with (S fuel + String.length s)%nat by lia.
    rewrite (IH (16 * a + Z.of_N d) acc (S fuel)) by (assumption || lia).
    cbn [JS.hex_digits].
    replace ((16 * a + Z.of_N d) / 16) with a by (apply Z.div_unique with (Z.of_N d); lia).
    replace ((16 * a + Z.of_N d) mod 16) with (Z.of_N d)
      by (apply Z.mod_unique with a; lia).
    destruct (Z.eqb_spec a 0); [ lia | ].
    rewrite Hc. reflexivity.
Qed.

End Printing.

Module Canonical.

Lemma append_nil (s : string) : (s ++ "")%string = s.
Proof. induction s as [| c s IH]; [ reflexivity | cbn; rewrite IH; reflexivity ]. Qed.

Lemma trim_end_zeros (k : nat) : JS.trim_end (JS.zeros (S k)) = JS.zeros (S k).
Proof.
  induction k as [| k IH]; [ reflexivity | ].
  change (JS.zeros (S (S k))) with (String "0" (JS.zeros (S k))).
  cbn [JS.trim_end]. rewrite IH. reflexivity.
Qed.

Lemma trim_end_app_zeros (s : string) (k : nat) :
  JS.trim_end (s ++ JS.zeros (S k)) = (s ++ JS.zeros (S k))%string.
Proof.
  induction s as [| c s IH].
  - apply trim_end_zeros.
  - cbn [String.append JS.trim_end]. rewrite IH.
    destruct s; reflexivity.
Qed.

Lemma not_all_hex_parse (s : string) (a : Z) :
  JS.all_hex_digits s = false -> JS.parse_hex_digits s a = None.
Proof.
  revert a. induction s as [| c s IH]; intros a; [ discriminate | ].
  cbn [JS.all_hex_digits JS.parse_hex_digits]. unfold JS.is_hex_digit.
  destruct (HexString.ascii_to_digit c); [ | reflexivity ].
  cbn [andb]. apply IH.
Qed.

(** [toString(16)] gives back lowercase digits whose first one is not "0". *)
Lemma toString16_parse (c : ascii) (rest : string) (v : Z) :
  c <> "0"%char ->
  all_lower_hex_digits (String c rest) = true ->
  JS.parse_hex_digits (String c rest) 0 = Some v ->
  0 < v /\ JS.BigInt_toString16 v = String c rest.
Proof.
  intros Hc Hlow Hparse.
  cbn [all_lower_hex_digits] in Hlow. apply andb_prop in Hlow as [Hlc Hrest].
  cbn [JS.parse_hex_digits] in Hparse. unfold is_lower_hex_digit in Hlc.
  destruct (HexString.ascii_to_digit c) as [d |] eqn:Ed; [ | discriminate ].
  apply Ascii.eqb_eq in Hlc.
  pose proof (Printing.digit_bound c d Ed) as Hd.
  assert (0 < Z.of_N d) as Hdpos.
  { destruct (Z.eq_dec (Z.of_N d) 0) as [E0 | ]; [ | lia ].
    rewrite E0 in Hlc. cbn in Hlc. congruence. }
  replace (16 * 0 + Z.of_N d) with (Z.of_N d) in Hparse by lia.
  pose proof (Codec.parse_nonneg rest (Z.of_N d) v ltac:(lia) Hparse) as Hv.
  set (n := String.length rest) in *.
  assert (0 < 16 ^ Z.of_nat n) as Hpow by (apply Z.pow_pos_nonneg; lia).
  assert (16 ^ Z.of_nat n <= v) as Hv' by nia.
  assert (0 < v) as Hvpos by lia.
  split; [ exact Hvpos | ].
  assert (Z.of_nat n <= Z.log2 v) as Hlog.
  { apply Z.le_trans with (4 * Z.of_nat n); [ lia | ].
    apply Z.log2_le_pow2; [ assumption | ].
    rewrite Z.pow_mul_r by lia. exact Hv'. }
  unfold JS.BigInt_toString16. destruct (Z.ltb_spec v 0); [ lia | ].
  rewrite Z.abs_eq by lia.
  replace (S (Z.to_nat (Z.log2 v))) with (S (Z.to_nat (Z.log2 v) - n) + n)%nat by lia.
  rewrite (Printing.hex_digits_parse rest (Z.of_N d) v) by assumption.
  cbn [JS.hex_digits].
  rewrite Z.div_small, Z.mod_small by lia. cbn [Z.eqb].
  rewrite Hlc, append_nil. reflexivity.
Qed.

(** The token of a positive identifier: lowercase digits, the first one
    and the last one not "0". *)
Lemma token_shape (id : Z) :
  0 < id ->
  exists c rest,
    getTokenFromId id = String c rest /\ c <> "0"%char /\
    all_lower_hex_digits (String c rest) = true /\
    JS.strip_trailing_zeros (String c rest) = String c rest /\
    (String.length (String c rest) <= String.length (JS.BigInt_toString16 id))%nat.
Proof.
  intros Hid. unfold getTokenFromId.
  destruct (Z.eqb_spec id 0); [ lia | ].
  assert (all_lower_hex_digits (JS.BigInt_toString16 id) = true) as Hlow.
  { unfold JS.BigInt_toString16. destruct (Z.ltb_spec id 0); [ lia | ].
    apply Printing.hex_digits_lower. reflexivity. }
  assert (exists c rest, JS.BigInt_toString16 id = String c rest /\ c <> "0"%char)
    as (c & rest & Es & Hc).
  { unfold JS.BigInt_toString16. destruct (Z.ltb_spec id 0); [ lia | ].
    rewrite Z.abs_eq by lia. apply Printing.hex_digits_lead.
    destruct (Printing.digit_count id Hid) as (k & Hk & Hlo & Hhi).
    split; [ assumption | ].
    apply Z.lt_le_trans with (16 ^ Z.of_nat k); [ assumption | ].
    apply Z.pow_le_mono_r; lia. }
  pose proof (Printing.strip_lower _ Hlow) as Hlow'.
  pose proof (Printing.strip_idempotent (JS.BigInt_toString16 id)) as Hidem.
  pose proof (Token.strip_trailing_zeros_length (JS.BigInt_toString16 id)) as Hlen.
  destruct (Printing.strip_lead c rest Hc) as (t & Et).
  rewrite Es in *. rewrite Et in *.
  exists c, t. repeat split; assumption.
Qed.

End Canonical.

(** X1. [getIdFromToken] maps "X" to 0; it throws a [RangeError] on any
    other token longer than sixteen characters; on a token of at most
    sixteen hexadecimal digits (the empty token included) it returns the
    value of the digits shifted left by four bits for every missing
    digit; on a shorter token other than "X" with a character that is no
    hexadecimal digit it throws a [SyntaxError]. *)
Theorem getIdFromToken_outcomes (token : string) :
  (token = "X"%string -> getIdFromToken token = Ok 0) /\
  (token <> "X"%string -> (16 < String.length token)%nat ->
   getIdFromToken token = Throw RangeError) /\
  (forall v, JS.parse_hex_digits token 0 = Some v -> (String.length token <= 16)%nat ->
   getIdFromToken token = Ok (v * 16 ^ (16 - Z.of_nat (String.length token)))) /\
  (token <> "X"%string -> JS.all_hex_digits token = false ->
   (String.length token < 16)%nat ->
   getIdFromToken token = Throw SyntaxError).
Proof.
  split; [ intros ->; reflexivity | ]. split; [ | split ].
  - intros HX Hlen. unfold getIdFromToken.
    destruct (String.eqb_spec token "X"); [ contradiction | ].
    unfold JS.repeat0.
    destruct (Z.ltb_spec (16 - Z.of_nat (String.length token)) 0); [ reflexivity | lia ].
  - intros v Hparse Hlen. apply Codec.getIdFromToken_hex; assumption.
  - intros HX Hhex Hlen. unfold getIdFromToken.
    destruct (String.eqb_spec token "X"); [ contradiction | ].
    unfold JS.repeat0.
    destruct (Z.ltb_spec (16 - Z.of_nat (String.length token)) 0); [ lia | ].
    cbn [obind]. unfold JS.BigInt_of_hex.
    replace (Z.to_nat (16 - Z.of_nat (String.length token)))
      with (S (15 - String.length token)) by lia.
    rewrite Canonical.trim_end_app_zeros.
    pose proof (Codec.parse_app_zeros token (S (15 - String.length token)) 0) as Hp.
    rewrite (Canonical.not_all_hex_parse token 0 Hhex) in Hp. cbn [option_map] in Hp.
    destruct (token ++ JS.zeros _)%string; [ reflexivity | ].
    rewrite Hp. reflexivity.
Qed.

Lemma getIdFromToken_outcomes_witness :
  getIdFromToken "X" = Ok 0 /\
  getIdFromToken "0123456789abcdef0" = Throw RangeError /\
  getIdFromToken "89c25c" = Ok (0x89c25c * 16 ^ (16 - 6)) /\
  getIdFromToken "89 c" = Throw SyntaxError.
Proof.
  split; [ | split; [ | split ] ].
  - apply (proj1 (getIdFromToken_outcomes "X")). reflexivity.
  - apply (proj1 (proj2 (getIdFromToken_outcomes "0123456789abcdef0"))).
    + discriminate.
    + simpl. lia.
  - apply (proj1 (proj2 (proj2 (getIdFromToken_outcomes "89c25c"))) 0x89c25c).
    + reflexivity.
    + simpl. lia.
  - apply (proj2 (proj2 (proj2 (getIdFromToken_outcomes "89 c")))).
    + discriminate.
    + reflexivity.
    + simpl. lia.
Defined.

(** X2. [isValidToken] never throws, and it answers [true] exactly on
    the tokens of one to sixteen hexadecimal digits whose value, padded
    on the right to sixteen digits, is a valid identifier. *)
Theorem isValidToken_spec (token : string) :
  (exists b, isValidToken token = Ok b) /\
  (isValidToken token = Ok true <->
   (1 <= String.length token <= 16)%nat /\
   exists v, JS.parse_hex_digits token 0 = Some v /\
             isValidId (v * 16 ^ (16 - Z.of_nat (String.length token))) = true).
Proof.
  unfold isValidToken.
  destruct (Nat.leb_spec 1 (String.length token)) as [H1 | H1];
    [ | split; [ eexists; reflexivity | split; [ discriminate | intros [? _]; lia ] ] ].
  destruct (Nat.leb_spec (String.length token) 16) as [H16 | H16];
    [ | split; [ eexists; reflexivity | split; [ discriminate | intros [? _]; lia ] ] ].
  destruct (JS.all_hex_digits token) eqn:Hhex; cbn [andb negb].
  - destruct (Codec.all_hex_parse token 0 Hhex) as (v & Hparse).
    rewrite (Codec.getIdFromToken_hex token v Hparse H16). cbn [obind].
    split; [ eexists; reflexivity | ]. split.
    + intros H. apply Ok_inj in H. split; [ lia | ]. exists v. split; assumption.
    + intros (_ & v' & Hparse' & Hvalid).
      rewrite Hparse in Hparse'. injection Hparse' as <-. rewrite Hvalid. reflexivity.
  - split; [ eexists; reflexivity | ]. split; [ discriminate | ].
    intros (_ & v & Hparse & _).
    rewrite (Codec.parse_all_hex token 0 v Hparse) in Hhex. discriminate.
Qed.

(** X3. [fromToken] throws "token is invalid." on every token that
    [isValidToken] refuses, whatever the BigInt support; on the others it
    is the constructor applied to the padded value of the digits, and so
    returns the cell of that identifier when BigInt is supported. *)
Theorem fromToken_outcomes (sb : bool) (token : string) :
  (isValidToken token = Ok false /\
   fromToken sb token = Throw (DeveloperError (Some "token is invalid."%string))) \/
  (exists v level,
     let id := v * 16 ^ (16 - Z.of_nat (String.length token)) in
     isValidToken token = Ok true /\
     JS.parse_hex_digits token 0 = Some v /\
     getLevel id = Ok level /\
     fromToken sb token
     = if sb then Ok (mkS2Cell id level)
       else Throw (RuntimeError "S2 required BigInt support")).
Proof.
  unfold fromToken.
  destruct (Nat.leb_spec 1 (String.length token)) as [H1 | H1].
  2:{ left. unfold isValidToken.
      destruct (Nat.leb_spec 1 (String.length token)); [ lia | ]. split; reflexivity. }
  destruct (Nat.leb_spec (String.length token) 16) as [H16 | H16].
  2:{ left. unfold isValidToken.
      destruct (Nat.leb_spec (String.length token) 16); [ lia | ].
      rewrite andb_false_r. split; reflexivity. }
  destruct (JS.all_hex_digits token) eqn:Hhex.
  2:{ left. unfold isValidToken. rewrite Hhex, andb_false_r. split; reflexivity. }
  destruct (Codec.all_hex_parse token 0 Hhex) as (v & Hparse).
  pose proof (Codec.getIdFromToken_hex token v Hparse H16) as Hid.
  assert (isValidToken token
          = Ok (isValidId (v * 16 ^ (16 - Z.of_nat (String.length token))))) as Hvt.
  { unfold isValidToken.
    destruct (Nat.leb_spec 1 (String.length token)); [ | lia ].
    destruct (Nat.leb_spec (String.length token) 16); [ | lia ].
    rewrite Hhex, Hid. reflexivity. }
  rewrite Hvt. cbn [obind].
  destruct (isValidId (v * 16 ^ (16 - Z.of_nat (String.length token)))) eqn:Hvalid;
    cbn [negb]; [ right | left; split; reflexivity ].
  pose proof Hvalid as Hshape. apply Valid.isValidId_shape in Hshape as (m & p & Hs).
  exists v, (30 - p / 2). cbv zeta.
  split; [ reflexivity | ]. split; [ exact Hparse | ].
  split; [ apply (Valid.getLevel_shape _ m p Hs) | ].
  rewrite Hid. cbn [obind]. unfold S2Cell_new.
  destruct sb; cbn [negb]; [ | reflexivity ].
  rewrite Hvalid. cbn [negb]. rewrite (Valid.getLevel_shape _ m p Hs). reflexivity.
Qed.

(** X4. For an identifier of [k] hexadecimal digits, [k] from 1 to 16,
    token and back gives the identifier shifted left by [16 - k] digits;
    it gives the identifier itself exactly when [k] is 16. *)
Theorem token_round_trip_left_aligns (k : nat) (id : Z) :
  (1 <= k <= 16)%nat ->
  16 ^ (Z.of_nat k - 1) <= id < 16 ^ Z.of_nat k ->
  getIdFromToken (getTokenFromId id) = Ok (id * 16 ^ (16 - Z.of_nat k)) /\
  (getIdFromToken (getTokenFromId id) = Ok id <-> k = 16%nat).
Proof.
  intros Hk Hid.
  assert (0 < 16 ^ (Z.of_nat k - 1)) as Hpos by (apply Z.pow_pos_nonneg; lia).
  assert (0 < id) as Hidpos by lia.
  assert (getIdFromToken (getTokenFromId id) = Ok (id * 16 ^ (16 - Z.of_nat k))) as Hrt.
  { unfold getTokenFromId. destruct (Z.eqb_spec id 0); [ lia | ].
    unfold JS.BigInt_toString16. destruct (Z.ltb_spec id 0); [ lia | ].
    rewrite Z.abs_eq by lia.
    set (fuel := S (Z.to_nat (Z.log2 id))).
    assert (Z.of_nat k - 1 <= Z.log2 id) as Hlog.
    { apply Z.le_trans with (4 * (Z.of_nat k - 1)); [ lia | ].
      apply Z.log2_le_pow2; [ assumption | ].
      rewrite Z.pow_mul_r by lia. apply Hid. }
    assert (k <= fuel)%nat as Hfuel by (unfold fuel; lia).
    set (s := JS.hex_digits fuel id "").
    assert (String.length s = k) as Hlen.
    { unfold s. rewrite (Token.hex_digits_length k) by (assumption || lia).
      cbn [String.length]. lia. }
    assert (JS.parse_hex_digits s 0 = Some id) as Hparse.
    { unfold s. rewrite Token.parse_hex_digits_of; [ reflexivity | ].
      split; [ lia | ].
      apply Z.lt_le_trans with (16 ^ Z.of_nat k); [ apply Hid | ].
      apply Z.pow_le_mono_r; lia. }
    pose proof (Token.strip_trailing_zeros_length s) as Hle.
    pose proof (Token.strip_trailing_zeros_pad s) as Hpad.
    set (token := JS.strip_trailing_zeros s) in *.
    rewrite <- Hpad, Codec.parse_app_zeros in Hparse.
    destruct (JS.parse_hex_digits token 0) as [v |] eqn:Hv; [ | discriminate ].
    cbn [option_map] in Hparse. injection Hparse as Hvid.
    rewrite (Codec.getIdFromToken_hex token v Hv) by lia.
    f_equal. rewrite <- Hvid, <- Z.mul_assoc, <- Z.pow_add_r by lia.
    f_equal. f_equal. lia. }
  split; [ exact Hrt | ]. rewrite Hrt. split.
  - intros H. apply Ok_inj in H.
    destruct (Nat.eq_dec k 16) as [ | Hne]; [ assumption | exfalso ].
    assert (16 ^ 1 <= 16 ^ (16 - Z.of_nat k)) by (apply Z.pow_le_mono_r; lia).
    change (16 ^ 1) with 16 in *. nia.
  - intros ->. change (16 - Z.of_nat 16) with 0. rewrite Z.pow_0_r, Z.mul_1_r. reflexivity.
Qed.

Lemma token_round_trip_left_aligns_witness :
  getIdFromToken (getTokenFromId 0x410) = Ok (0x410 * 16 ^ (16 - Z.of_nat 3)) /\
  (getIdFromToken (getTokenFromId 0x410) = Ok 0x410 <-> 3%nat = 16%nat).
Proof.
  apply (token_round_trip_left_aligns 3 0x410).
  - lia.
  - simpl. lia.
Defined.

(** X5. A token of at most sixteen lowercase hexadecimal digits whose
    first and last digits are not "0" is the token of its own
    identifier. *)
Theorem token_of_id_of_token (c : ascii) (rest : string) :
  c <> "0"%char ->
  all_lower_hex_digits (String c rest) = true ->
  JS.strip_trailing_zeros (String c rest) = String c rest ->
  (String.length (String c rest) <= 16)%nat ->
  exists id, getIdFromToken (String c rest) = Ok id /\
             getTokenFromId id = String c rest.
Proof.
  intros Hc Hlow Hstrip Hlen.
  set (token := String c rest) in *.
  destruct (Codec.all_hex_parse token 0 (Printing.lower_is_hex token Hlow)) as (v & Hparse).
  set (pad := (16 - String.length token)%nat).
  exists (v * 16 ^ Z.of_nat pad). split.
  - rewrite (Codec.getIdFromToken_hex token v Hparse Hlen).
    f_equal. f_equal. f_equal. unfold pad. lia.
  - assert (JS.parse_hex_digits (String c (rest ++ JS.zeros pad)) 0
            = Some (v * 16 ^ Z.of_nat pad)) as Hparse'.
    { change (String c (rest ++ JS.zeros pad)) with (token ++ JS.zeros pad)%string.
      rewrite Codec.parse_app_zeros, Hparse. reflexivity. }
    assert (all_lower_hex_digits (String c (rest ++ JS.zeros pad)) = true) as Hlow'
      by (apply (Printing.lower_app_zeros token pad Hlow)).
    destruct (Canonical.toString16_parse c _ _ Hc Hlow' Hparse') as (Hpos & Hprint).
    unfold getTokenFromId.
    destruct (Z.eqb_spec (v * 16 ^ Z.of_nat pad) 0); [ lia | ].
    rewrite Hprint.
    change (String c (rest ++ JS.zeros pad)) with (token ++ JS.zeros pad)%string.
    rewrite Printing.strip_app_zeros. exact Hstrip.
Qed.

Lemma token_of_id_of_token_witness :
  exists id, getIdFromToken "89c25c" = Ok id /\ getTokenFromId id = "89c25c"%string.
Proof.
  apply (token_of_id_of_token "8" "9c25c").
  - discriminate.
  - reflexivity.
  - reflexivity.
  - simpl. lia.
Defined.

(** X6. The token of a positive identifier below 2^64 has one to
    sixteen lowercase hexadecimal digits, the first and the last of them
    not "0"; so it matches the pattern of [isValidToken] and is never
    "X". *)
Theorem getTokenFromId_well_formed (id : Z) :
  0 < id < 2 ^ 64 ->
  exists c rest,
    getTokenFromId id = String c rest /\ c <> "0"%char /\
    (String.length (String c rest) <= 16)%nat /\
    all_lower_hex_digits (String c rest) = true /\
    JS.all_hex_digits (String c rest) = true /\
    JS.strip_trailing_zeros (String c rest) = String c rest.
Proof.
  intros [Hpos Hlt].
  destruct (Canonical.token_shape id Hpos) as (c & rest & Et & Hc & Hlow & Hstrip & Hlen).
  exists c, rest. repeat split; try assumption.
  - destruct (Printing.digit_count id Hpos) as (k & Hk & Hlo & Hhi).
    assert (k <= 16)%nat as Hk16.
    { destruct (Nat.le_gt_cases k 16) as [ | Hgt]; [ assumption | exfalso ].
      assert (16 ^ 16 <= 16 ^ (Z.of_nat k - 1)) by (apply Z.pow_le_mono_r; lia).
      change (2 ^ 64) with (16 ^ 16) in Hlt. lia. }
    assert (String.length (JS.BigInt_toString16 id) = k) as Hprint.
    { unfold JS.BigInt_toString16. destruct (Z.ltb_spec id 0); [ lia | ].
      rewrite Z.abs_eq by lia.
      rewrite (Token.hex_digits_length k) by (assumption || lia).
      cbn [String.length]. lia. }
    lia.
  - apply Printing.lower_is_hex. assumption.
Qed.

Lemma getTokenFromId_well_formed_witness :
  exists c rest,
    getTokenFromId 0x89c25c0000000000 = String c rest /\ c <> "0"%char /\
    (String.length (String c rest) <= 16)%nat /\
    all_lower_hex_digits (String c rest) = true /\
    JS.all_hex_digits (String c rest) = true /\
    JS.strip_trailing_zeros (String c rest) = String c rest.
Proof.
  apply (getTokenFromId_well_formed 0x89c25c0000000000). simpl. lia.
Defined.

(** X7. A cell whose identifier is at least 2^60 is rebuilt by
    [fromToken] from the token of its identifier. *)
Theorem fromToken_getTokenFromId (sb : bool) (id : Z) (c : S2Cell) :
  S2Cell_new sb id = Ok c ->
  2 ^ 60 <= id ->
  fromToken sb (getTokenFromId id) = Ok c.
Proof.
  intros Hnew Hid.
  pose proof Hnew as Hinv.
  apply CellFacts.S2Cell_new_inv in Hinv as (-> & m & p & Hs & ->).
  pose proof Hs as (_ & _ & _ & _ & Hlt).
  assert (id < 2 ^ 64) as Hlt64 by lia.
  assert (0 < id) as Hpos by lia.
  pose proof (Token.round_trip_16_digits id (conj Hid Hlt64)) as Hrt.
  destruct (Canonical.token_shape id Hpos) as (c0 & rest & Et & Hc & Hlow & Hstrip & Hlen).
  assert (String.length (JS.BigInt_toString16 id) = 16%nat) as Hprint.
  { assert (60 <= Z.log2 id) by (apply Z.log2_le_pow2; lia).
    unfold JS.BigInt_toString16. destruct (Z.ltb_spec id 0); [ lia | ].
    rewrite Z.abs_eq by lia.
    rewrite (Token.hex_digits_length 16) by (simpl; lia). reflexivity. }
  unfold fromToken, isValidToken. rewrite Hrt, Et.
  destruct (Nat.leb_spec 1 (String.length (String c0 rest))); [ | cbn in *; lia ].
  destruct (Nat.leb_spec (String.length (String c0 rest)) 16); [ | lia ].
  rewrite (Printing.lower_is_hex _ Hlow). cbn [andb negb obind].
  assert (isValidId id = true) as -> by (apply Valid.isValidId_shape; eauto).
  cbn [negb]. exact Hnew.
Qed.

Lemma fromToken_getTokenFromId_witness :
  fromToken true (getTokenFromId 0x89c25c0000000000)
  = Ok (mkS2Cell 0x89c25c0000000000 9).
Proof.
  apply (fromToken_getTokenFromId true 0x89c25c0000000000).
  - reflexivity.
  - simpl. lia.
Defined.

(** ** Navigation: faces, ranges, ancestors *)

Module Layout.

Lemma pow2_split (a b : Z) : 0 <= a -> 0 <= b -> 2 ^ (a + b) = 2 ^ a * 2 ^ b.
Proof. intros Ha Hb. apply Z.pow_add_r; assumption. Qed.

(** The face bits of an odd multiple of [2^p] depend on [m] alone. *)
Lemma face_of_shape (m p : Z) :
  0 <= m -> 0 <= p <= 60 ->
  Z.shiftr ((2 * m + 1) * 2 ^ p) 61 = m / 2 ^ (60 - p).
Proof.
  intros Hm Hp. rewrite Z.shiftr_div_pow2 by lia.
  replace 61 with (p + (1 + (60 - p))) at 1 by lia.
  rewrite pow2_split, pow2_split by lia.
  assert (0 < 2 ^ p) by (apply Z.pow_pos_nonneg; lia).
  assert (0 < 2 ^ (60 - p)) by (apply Z.pow_pos_nonneg; lia).
  rewrite <- Z.div_div by lia.
  rewrite Z_div_mult by lia.
  rewrite <- Z.div_div by lia. change (2 ^ 1) with 2.
  replace ((2 * m + 1) / 2) with m by (apply Z.div_unique with 1; lia).
  reflexivity.
Qed.

Lemma face_of_cell (id m p : Z) :
  shape id m p -> Z.shiftr id 61 = m / 2 ^ (60 - p).
Proof.
  intros (Hm & Hp & _ & E & _). rewrite E. apply face_of_shape; assumption.
Qed.

Lemma child_face (id m p i : Z) :
  shape id m p -> 2 <= p -> 0 <= i <= 3 ->
  Z.shiftr ((2 * (4 * m + i) + 1) * 2 ^ (p - 2)) 61 = Z.shiftr id 61.
Proof.
  intros Hs Hp2 Hi. pose proof Hs as (Hm & Hp & _).
  rewrite (face_of_cell id m p Hs), face_of_shape by lia.
  replace (60 - (p - 2)) with (2 + (60 - p)) by lia.
  rewrite pow2_split by lia. change (2 ^ 2) with 4.
  rewrite <- Z.div_div by (try apply Z.pow_pos_nonneg; lia).
  f_equal. symmetry. apply Z.div_unique with i; lia.
Qed.

Lemma parent_face (id m p : Z) :
  shape id m p -> p <= 58 ->
  Z.shiftr ((2 * (m / 4) + 1) * 2 ^ (p + 2)) 61 = Z.shiftr id 61.
Proof.
  intros Hs Hp58. pose proof Hs as (Hm & Hp & _).
  assert (0 <= m / 4) by (apply Z.div_pos; lia).
  rewrite (face_of_cell id m p Hs), face_of_shape by lia.
  replace (60 - p) with (2 + (60 - (p + 2))) by lia.
  rewrite pow2_split by lia. change (2 ^ 2) with 4.
  rewrite <- Z.div_div by (try apply Z.pow_pos_nonneg; lia).
  reflexivity.
Qed.

Lemma level_of_shape (p : Z) : 0 <= p <= 60 -> Z.even p = true -> p = 60 - 2 * (30 - p / 2).
Proof. intros Hp Hev. pose proof (CellFacts.even_half p Hev). lia. Qed.

(** [n] applications of [getParent]. *)
Lemma getParent_iter_shape (n : nat) (id m p : Z) :
  shape id m p -> p + 2 * Z.of_nat n <= 60 ->
  getParent_iter true n (mkS2Cell id (30 - p / 2))
  = Ok (mkS2Cell ((2 * (m / 4 ^ Z.of_nat n) + 1) * 2 ^ (p + 2 * Z.of_nat n))
                 (30 - (p + 2 * Z.of_nat n) / 2)).
Proof.
  revert id m p. induction n as [| n IH]; intros id m p Hs Hn.
  - cbn [getParent_iter]. destruct Hs as (_ & _ & _ & E & _).
    change (Z.of_nat 0) with 0. rewrite Z.pow_0_r, Z.div_1_r, Z.mul_0_r, Z.add_0_r.
    rewrite <- E. reflexivity.
  - cbn [getParent_iter].
    assert (p <= 58) as Hp58 by lia.
    rewrite (CellFacts.getParent_shape id m p Hs Hp58). cbn [fst obind].
    rewrite (IH _ _ _ (Nav.parent_shape id m p Hs Hp58)) by lia.
    pose proof Hs as (Hm & _).
    rewrite Z.div_div by (try apply Z.pow_pos_nonneg; lia).
    replace (4 * 4 ^ Z.of_nat n) with (4 ^ Z.of_nat (S n))
      by (rewrite Nat2Z.inj_succ, Z.pow_succ_r by lia; reflexivity).
    replace (p + 2 + 2 * Z.of_nat n) with (p + 2 * Z.of_nat (S n)) by lia.
    reflexivity.
Qed.

End Layout.

(** X8. Every cell above level 0 is a child of its parent, under one
    index only: [getParent] succeeds, and [getChild] on the parent gives
    the cell back for exactly one index in 0..3. *)
Theorem getChild_getParent (sb : bool) (id : Z) (c : S2Cell) :
  S2Cell_new sb id = Ok c ->
  0 < _level c ->
  exists parent i,
    getParent sb c = (Ok parent, c) /\ 0 <= i <= 3 /\
    forall j, 0 <= j <= 3 -> (getChild sb j parent = (Ok c, parent) <-> j = i).
Proof.
  intros Hnew Hlevel.
  apply CellFacts.S2Cell_new_inv in Hnew as (-> & m & p & Hs & ->).
  cbn [_level] in Hlevel.
  pose proof Hs as (Hm & Hp & Hev & E & _). pose proof (CellFacts.even_half p Hev) as Hhalf.
  assert (p <= 58) as Hp58 by lia.
  pose proof (Nav.parent_shape id m p Hs Hp58) as Hps.
  pose proof (Z.div_mod m 4 ltac:(lia)) as Em.
  pose proof (Z.mod_pos_bound m 4 ltac:(lia)) as Bm.
  eexists. exists (m mod 4).
  split; [ apply (CellFacts.getParent_shape id m p Hs Hp58) | ].
  split; [ lia | ].
  intros j Hj.
  rewrite (CellFacts.getChild_shape _ _ _ j Hps) by lia.
  replace (p + 2 - 2) with p by lia.
  assert (0 < 2 ^ p) as Hpow by (apply Z.pow_pos_nonneg; lia).
  split.
  - intros H. apply (f_equal fst) in H. cbn [fst] in H.
    apply Ok_inj in H. apply (f_equal _cellId) in H. cbn [_cellId] in H.
    rewrite E in H. apply Z.mul_cancel_r in H; lia.
  - intros ->. do 3 f_equal. rewrite E. f_equal. lia.
Qed.

Lemma getChild_getParent_witness :
  exists parent i,
    getParent true (mkS2Cell 0x410 28) = (Ok parent, mkS2Cell 0x410 28) /\ 0 <= i <= 3 /\
    forall j, 0 <= j <= 3 ->
              (getChild true j parent = (Ok (mkS2Cell 0x410 28), parent) <-> j = i).
Proof.
  apply (getChild_getParent true 0x410 (mkS2Cell 0x410 28)).
  - reflexivity.
  - simpl. lia.
Defined.

(** X9. Navigation stays on the face: the child of a valid cell, for
    any index in 0..3, is one level deeper and has the face bits of the
    cell; the parent has the face bits of the cell too. *)
Theorem navigation_keeps_face (sb : bool) (id : Z) (c : S2Cell) :
  S2Cell_new sb id = Ok c ->
  (forall i, 0 <= i <= 3 -> _level c < 30 ->
     exists child, getChild sb i c = (Ok child, c) /\
                   _level child = _level c + 1 /\
                   Z.shiftr (_cellId child) 61 = Z.shiftr id 61) /\
  (0 < _level c ->
     exists parent, getParent sb c = (Ok parent, c) /\
                    Z.shiftr (_cellId parent) 61 = Z.shiftr id 61).
Proof.
  intros Hnew.
  apply CellFacts.S2Cell_new_inv in Hnew as (-> & m & p & Hs & ->).
  cbn [_level].
  pose proof Hs as (_ & Hp & Hev & _). pose proof (CellFacts.even_half p Hev) as Hhalf.
  split.
  - intros i Hi Hlevel. assert (2 <= p) as Hp2 by lia.
    eexists. rewrite (CellFacts.getChild_shape id m p i Hs Hp2 Hi).
    split; [ reflexivity | ]. cbn [_level _cellId].
    split; [ rewrite CellFacts.half_pred; lia | ].
    apply Layout.child_face; assumption.
  - intros Hlevel. assert (p <= 58) as Hp58 by lia.
    eexists. rewrite (CellFacts.getParent_shape id m p Hs Hp58).
    split; [ reflexivity | ]. cbn [_cellId].
    apply Layout.parent_face; assumption.
Qed.

Lemma navigation_keeps_face_witness :
  (exists child, getChild true 3 (mkS2Cell 0x3000000000000410 28)
                 = (Ok child, mkS2Cell 0x3000000000000410 28) /\
                 _level child = 28 + 1 /\
                 Z.shiftr (_cellId child) 61 = Z.shiftr 0x3000000000000410 61) /\
  (exists parent, getParent true (mkS2Cell 0x3000000000000410 28)
                  = (Ok parent, mkS2Cell 0x3000000000000410 28) /\
                  Z.shiftr (_cellId parent) 61 = Z.shiftr 0x3000000000000410 61).
Proof.
  destruct (navigation_keeps_face true 0x3000000000000410
              (mkS2Cell 0x3000000000000410 28) eq_refl) as (Hchild & Hparent).
  split; [ apply Hchild | apply Hparent ]; simpl; lia.
Defined.

(** X10. The children of a valid cell come in the order of their index
    and lie strictly inside [(id - lsb(id), id + lsb(id))]: for indices
    [i < j], child [i] has the smaller identifier; the children 0 and 1
    are below the identifier of the cell, the children 2 and 3 above. *)
Theorem children_ordered (sb : bool) (id : Z) (c : S2Cell) (i j : Z) :
  S2Cell_new sb id = Ok c ->
  _level c < 30 ->
  0 <= i -> i < j -> j <= 3 ->
  exists ci cj,
    getChild sb i c = (Ok ci, c) /\ getChild sb j c = (Ok cj, c) /\
    id - lsb id < _cellId ci /\ _cellId ci < _cellId cj /\ _cellId cj < id + lsb id /\
    (i <= 1 -> _cellId ci < id) /\ (2 <= j -> id < _cellId cj).
Proof.
  intros Hnew Hlevel Hi Hij Hj.
  apply CellFacts.S2Cell_new_inv in Hnew as (-> & m & p & Hs & ->).
  cbn [_level] in Hlevel.
  pose proof Hs as (Hm & Hp & Hev & E & _). pose proof (CellFacts.even_half p Hev) as Hhalf.
  assert (2 <= p) as Hp2 by lia.
  do 2 eexists.
  rewrite (CellFacts.getChild_shape id m p i Hs Hp2) by lia.
  rewrite (CellFacts.getChild_shape id m p j Hs Hp2) by lia.
  split; [ reflexivity | ]. split; [ reflexivity | ]. cbn [_cellId].
  assert (lsb id = 2 ^ p) as -> by (rewrite E; apply Bits.lsb_odd_pow2; lia).
  assert (2 ^ p = 4 * 2 ^ (p - 2)) as Ep.
  { change 4 with (2 ^ 2). rewrite <- Z.pow_add_r by lia. f_equal. lia. }
  assert (0 < 2 ^ (p - 2)) as Ha by (apply Z.pow_pos_nonneg; lia).
  rewrite E, Ep. set (a := 2 ^ (p - 2)) in *.
  repeat split; try intros ?; nia.
Qed.

Lemma children_ordered_witness :
  exists ci cj,
    getChild true 1 (mkS2Cell 0x410 28) = (Ok ci, mkS2Cell 0x410 28) /\
    getChild true 2 (mkS2Cell 0x410 28) = (Ok cj, mkS2Cell 0x410 28) /\
    0x410 - lsb 0x410 < _cellId ci /\ _cellId ci < _cellId cj /\
    _cellId cj < 0x410 + lsb 0x410 /\
    (1 <= 1 -> _cellId ci < 0x410) /\ (2 <= 2 -> 0x410 < _cellId cj).
Proof.
  apply (children_ordered true 0x410 (mkS2Cell 0x410 28) 1 2).
  - reflexivity.
  - simpl. lia.
  - lia.
  - lia.
  - lia.
Defined.

(** X11. Climbing with [getParent] as many times as the level of a
    valid cell ends at the root cell of its face, the identifier
    [(2 * face + 1) * 2^60] at level 0; one more [getParent] throws
    "cannot get parent of root cell.". *)
Theorem getParent_iter_root (sb : bool) (id : Z) (c : S2Cell) :
  S2Cell_new sb id = Ok c ->
  getParent_iter sb (Z.to_nat (_level c)) c
  = Ok (mkS2Cell ((2 * Z.shiftr id 61 + 1) * 2 ^ 60) 0) /\
  getParent_iter sb (S (Z.to_nat (_level c))) c
  = Throw (DeveloperError (Some "cannot get parent of root cell."%string)).
Proof.
  intros Hnew.
  apply CellFacts.S2Cell_new_inv in Hnew as (-> & m & p & Hs & ->).
  cbn [_level].
  pose proof Hs as (Hm & Hp & Hev & E & _). pose proof (CellFacts.even_half p Hev) as Hhalf.
  set (n := Z.to_nat (30 - p / 2)).
  assert (p + 2 * Z.of_nat n = 60) as Hn by (unfold n; lia).
  assert (getParent_iter true n (mkS2Cell id (30 - p / 2))
          = Ok (mkS2Cell ((2 * Z.shiftr id 61 + 1) * 2 ^ 60) 0)) as Hroot.
  { rewrite (Layout.getParent_iter_shape n id m p Hs) by lia.
    rewrite Hn. change (30 - 60 / 2) with 0.
    rewrite (Layout.face_of_cell id m p Hs).
    replace (4 ^ Z.of_nat n) with (2 ^ (60 - p)); [ reflexivity | ].
    change 4 with (2 ^ 2). rewrite <- Z.pow_mul_r by lia. f_equal. lia. }
  split; [ exact Hroot | ].
  assert (forall k (c0 : S2Cell) r,
            getParent_iter true k c0 = Ok r ->
            getParent_iter true (S k) c0 = obind (fst (getParent true r)) Ok) as Hsnoc.
  { induction k as [| k IH]; intros c0 r Hk.
    - cbn [getParent_iter] in *. injection Hk as ->.
      destruct (fst (getParent true r)); reflexivity.
    - change (getParent_iter true (S (S k)) c0)
        with (obind (fst (getParent true c0)) (getParent_iter true (S k))).
      cbn [getParent_iter] in Hk.
      destruct (fst (getParent true c0)) as [parent | e |]; cbn [obind] in *;
        [ | discriminate | discriminate ].
      apply IH. exact Hk. }
  rewrite (Hsnoc _ _ _ Hroot). reflexivity.
Qed.

Lemma getParent_iter_root_witness :
  getParent_iter true (Z.to_nat 28) (mkS2Cell 0x3000000000000410 28)
  = Ok (mkS2Cell ((2 * Z.shiftr 0x3000000000000410 61 + 1) * 2 ^ 60) 0) /\
  getParent_iter true (S (Z.to_nat 28)) (mkS2Cell 0x3000000000000410 28)
  = Throw (DeveloperError (Some "cannot get parent of root cell."%string)).
Proof.
  apply (getParent_iter_root true 0x3000000000000410 (mkS2Cell 0x3000000000000410 28)).
  reflexivity.
Defined.

(** ** Identifiers: lowest set bit, bit layout, construction *)

(** X12. For a positive [cellId], [lsb(cellId)] is the power of two at
    the position of its lowest set bit, and [lsb(-cellId)] is the same
    value. *)
Theorem lsb_lowest_set_bit (id p : Z) :
  0 < id ->
  lowest_set_bit_at id p ->
  lsb id = 2 ^ p /\ lsb (- id) = 2 ^ p.
Proof.
  intros Hpos Hlow.
  destruct (Bits.odd_pow2_decomposition id Hpos) as (m & p' & Hm & Hp' & E).
  assert (p = p') as <-.
  { apply (Bits.lowest_set_bit_unique id); [ assumption | ].
    rewrite E. apply Bits.lowest_set_bit_odd_pow2. assumption. }
  assert (lsb id = 2 ^ p) as Hlsb by (rewrite E; apply Bits.lsb_odd_pow2; assumption).
  split; [ exact Hlsb | ].
  rewrite <- Hlsb. unfold lsb. rewrite !Bits.lnot_succ, Z.opp_involutive.
  apply Z.land_comm.
Qed.

Lemma lsb_lowest_set_bit_witness : lsb 0x410 = 2 ^ 4 /\ lsb (- 0x410) = 2 ^ 4.
Proof.
  apply (lsb_lowest_set_bit 0x410 4).
  - lia.
  - split; [ lia | split; [ reflexivity | ] ].
    intros q Hq.
    assert (q = 0 \/ q = 1 \/ q = 2 \/ q = 3) as [-> | [-> | [-> | ->]]] by lia; reflexivity.
Defined.

(** X13. The valid identifiers are exactly the values
    [face * 2^61 + (2 * pos + 1) * 2^(60 - 2 * level)] with a face in
    0..5, a level in 0..30 and a position [pos] below [4^level]; on such
    a value [getLevel] returns [level] and the face bits are [face]. *)
Theorem isValidId_layout (id : Z) :
  (isValidId id = true ->
   exists face level pos,
     0 <= face <= 5 /\ 0 <= level <= 30 /\ 0 <= pos < 4 ^ level /\
     id = face * 2 ^ 61 + (2 * pos + 1) * 2 ^ (60 - 2 * level)) /\
  (forall face level pos,
     0 <= face <= 5 -> 0 <= level <= 30 -> 0 <= pos < 4 ^ level ->
     id = face * 2 ^ 61 + (2 * pos + 1) * 2 ^ (60 - 2 * level) ->
     isValidId id = true /\ getLevel id = Ok level /\ Z.shiftr id 61 = face).
Proof.
  split.
  - intros Hvalid. apply Valid.isValidId_shape in Hvalid as (m & p & Hs).
    pose proof Hs as (Hm & Hp & Hev & E & Hlt).
    pose proof (CellFacts.even_half p Hev) as Hhalf.
    set (level := 30 - p / 2).
    assert (0 < 4 ^ level) as H4 by (apply Z.pow_pos_nonneg; lia).
    assert (0 < 2 ^ p) as H2 by (apply Z.pow_pos_nonneg; lia).
    assert (2 ^ 61 = 2 * 4 ^ level * 2 ^ p) as E61.
    { change 4 with (2 ^ 2). rewrite <- Z.pow_mul_r by lia.
      rewrite <- (Z.pow_succ_r 2) by lia. rewrite <- Z.pow_add_r by lia.
      f_equal. unfold level. lia. }
    pose proof (Z.div_mod m (4 ^ level) ltac:(lia)) as Em.
    pose proof (Z.mod_pos_bound m (4 ^ level) ltac:(lia)) as Bm.
    assert (0 <= m / 4 ^ level) as Hface by (apply Z.div_pos; lia).
    exists (m / 4 ^ level), level, (m mod 4 ^ level).
    replace (60 - 2 * level) with p by (unfold level; lia).
    assert (id = m / 4 ^ level * 2 ^ 61 + (2 * (m mod 4 ^ level) + 1) * 2 ^ p) as Eid.
    { rewrite E61, E. rewrite Em at 1. ring. }
    assert (0 <= (2 * (m mod 4 ^ level) + 1) * 2 ^ p) by nia.
    repeat split; try lia; try assumption.
  - intros face level pos Hface Hlevel Hpos Eid.
    set (p := 60 - 2 * level) in *.
    assert (0 < 4 ^ level) as H4 by (apply Z.pow_pos_nonneg; lia).
    assert (0 < 2 ^ p) as H2 by (apply Z.pow_pos_nonneg; unfold p; lia).
    assert (2 ^ 61 = 2 * 4 ^ level * 2 ^ p) as E61.
    { change 4 with (2 ^ 2). rewrite <- Z.pow_mul_r by lia.
      rewrite <- (Z.pow_succ_r 2) by lia. rewrite <- Z.pow_add_r by (unfold p; lia).
      f_equal. unfold p. lia. }
    assert (shape id (face * 4 ^ level + pos) p) as Hs.
    { assert ((2 * pos + 1) * 2 ^ p < 2 ^ 61) by (rewrite E61; nia).
      unfold shape. repeat split; try (unfold p; lia); try nia.
      unfold p. rewrite Z.even_sub, Z.even_mul. reflexivity. }
    split; [ apply Valid.isValidId_shape; eauto | ].
    split.
    + rewrite (Valid.getLevel_shape _ _ _ Hs). f_equal.
      unfold p. replace (60 - 2 * level) with ((30 - level) * 2) by lia.
      rewrite Z_div_mult by lia. lia.
    + rewrite (Layout.face_of_cell _ _ _ Hs).
      replace (2 ^ (60 - p)) with (4 ^ level).
      * symmetry. apply Z.div_unique with pos; lia.
      * change 4 with (2 ^ 2). rewrite <- Z.pow_mul_r by lia. f_equal. unfold p. lia.
Qed.

Lemma isValidId_layout_witness :
  (exists face level pos,
     0 <= face <= 5 /\ 0 <= level <= 30 /\ 0 <= pos < 4 ^ level /\
     0x3000000000000410 = face * 2 ^ 61 + (2 * pos + 1) * 2 ^ (60 - 2 * level)) /\
  (isValidId 0x3000000000000410 = true /\ getLevel 0x3000000000000410 = Ok 28 /\
   Z.shiftr 0x3000000000000410 61 = 1).
Proof.
  split.
  - apply (proj1 (isValidId_layout 0x3000000000000410)). reflexivity.
  - apply (proj2 (isValidId_layout 0x3000000000000410) 1 28 (2 ^ 55 + 32)).
    + lia.
    + lia.
    + simpl. lia.
    + reflexivity.
Defined.

(** X14. The constructor checks the BigInt support first and the
    identifier second: without support it throws the [RuntimeError] for
    every identifier; with support it throws "cell ID is invalid." on an
    invalid identifier and returns the cell, with a level in 0..30, on a
    valid one: [getLevel] does not fail there. *)
Theorem S2Cell_new_outcomes (sb : bool) (id : Z) :
  (sb = false -> S2Cell_new sb id = Throw (RuntimeError "S2 required BigInt support")) /\
  (sb = true -> isValidId id = false ->
   S2Cell_new sb id = Throw (DeveloperError (Some "cell ID is invalid."%string))) /\
  (sb = true -> isValidId id = true ->
   exists level, 0 <= level <= 30 /\ getLevel id = Ok level /\
                 S2Cell_new sb id = Ok (mkS2Cell id level)).
Proof.
  split; [ intros ->; reflexivity | ]. split.
  - intros -> Hinvalid. unfold S2Cell_new. rewrite Hinvalid. reflexivity.
  - intros -> Hvalid. apply Valid.isValidId_shape in Hvalid as (m & p & Hs).
    pose proof Hs as (_ & Hp & Hev & _). pose proof (CellFacts.even_half p Hev).
    exists (30 - p / 2). split; [ lia | ].
    split; [ apply (Valid.getLevel_shape id m p Hs) | ].
    apply (CellFacts.S2Cell_new_shape id m p Hs).
Qed.

Lemma S2Cell_new_outcomes_witness :
  S2Cell_new false 0x410 = Throw (RuntimeError "S2 required BigInt support") /\
  S2Cell_new true 0x420 = Throw (DeveloperError (Some "cell ID is invalid."%string)) /\
  (exists level, 0 <= level <= 30 /\ getLevel 0x410 = Ok level /\
                 S2Cell_new true 0x410 = Ok (mkS2Cell 0x410 level)).
Proof.
  split; [ | split ].
  - apply (proj1 (S2Cell_new_outcomes false 0x410)). reflexivity.
  - apply (proj1 (proj2 (S2Cell_new_outcomes true 0x420))); reflexivity.
  - apply (proj2 (proj2 (S2Cell_new_outcomes true 0x410))); reflexivity.
Defined.

(** ** The decoder on the generated tables *)

Module Decoder.

Lemma Number_small (b : Z) : Z.abs b < 2 ^ 53 -> JS.Number_of_BigInt b = b.
Proof.
  intros Hb. unfold JS.Number_of_BigInt.
  destruct (Z.eq_dec b 0) as [-> | Hnz]; [ reflexivity | ].
  assert (Z.log2 (Z.abs b) < 53) as Hlog by (apply Z.log2_lt_pow2; lia).
  destruct (Z.ltb_spec (Z.log2 (Z.abs b)) 53); [ reflexivity | lia ].
Qed.

Lemma land_bit (a n : Z) : 0 <= n -> Z.land a (2 ^ n) = 0 \/ Z.land a (2 ^ n) = 2 ^ n.
Proof.
  intros Hn. rewrite Z.land_comm, Bits.land_pow2 by assumption.
  destruct (Z.testbit a n); [ right | left ]; reflexivity.
Qed.

Lemma generate_from_empty : generateLookupTable initial_tables = (Ok tt, generated_tables).
Proof. vm_compute. reflexivity. Qed.

(** Every key of ten bits has an entry in [S2LookupIJ], and the entry is
    an orientation: the [ij] part of every entry is 0. *)
Lemma lookupIJ_entry (idx : Z) :
  0 <= idx < 1024 ->
  exists e, JS.array_get (S2LookupIJ generated_tables) idx = JS.Num e /\ 0 <= e <= 3.
Proof.
  intros Hidx.
  assert (forallb (fun n => match JS.array_get (S2LookupIJ generated_tables) (Z.of_nat n) with
                            | JS.Num e => (0 <=? e) && (e <=? 3)
                            | JS.Undefined => false
                            end) (seq 0 1024) = true) as Hall by (vm_compute; reflexivity).
  rewrite forallb_forall in Hall. specialize (Hall (Z.to_nat idx)).
  rewrite Z2Nat.id in Hall by lia.
  destruct (JS.array_get (S2LookupIJ generated_tables) idx) as [| e].
  - discriminate Hall. apply in_seq. lia.
  - exists e. split; [ reflexivity | ].
    assert ((0 <=? e) && (e <=? 3) = true) as He by (apply Hall, in_seq; lia).
    apply andb_prop in He as [H0 H3]. apply Z.leb_le in H0, H3. lia.
Qed.

Lemma and_3 (a : Z) : 0 <= JS.and a (JS.or S2SwapMask S2InvertMask) <= 3.
Proof.
  unfold JS.and. change (JS.ToInt32 (JS.or S2SwapMask S2InvertMask)) with (Z.ones 2).
  rewrite Z.land_ones by lia. change (2 ^ 2) with 4.
  pose proof (Z.mod_pos_bound (JS.ToInt32 a) 4 ltac:(lia)). lia.
Qed.

Lemma step_ok (cellId k : Z) (st : JS.number * JS.number * JS.number) :
  loop_state_ok st ->
  loop_state_ok (getFaceIJOrientation_step (S2LookupIJ generated_tables) cellId st k).
Proof.
  intros (i & j & o & -> & Ho). unfold getFaceIJOrientation_step.
  set (shifted := Z.shiftr cellId (k * 2 * S2LookupBits + 1)).
  set (mask := JS.shl (JS.shl 1 (2 * (if k =? 7 then S2MaxLevel - 7 * S2LookupBits
                                      else S2LookupBits) - 1)) 2).
  assert (Z.land shifted mask = 0 \/ Z.land shifted mask = 32 \/ Z.land shifted mask = 512)
    as Hv.
  { unfold mask. destruct (k =? 7).
    - change (JS.shl (JS.shl 1 (2 * (S2MaxLevel - 7 * S2LookupBits) - 1)) 2) with (2 ^ 5).
      destruct (land_bit shifted 5 ltac:(lia)) as [-> | ->]; auto.
    - change (JS.shl (JS.shl 1 (2 * S2LookupBits - 1)) 2) with (2 ^ 9).
      destruct (land_bit shifted 9 ltac:(lia)) as [-> | ->]; auto. }
  set (v := Z.land shifted mask) in *.
  rewrite Number_small by (destruct Hv as [-> | [-> | ->]]; simpl; lia).
  cbn [JS.add].
  destruct (lookupIJ_entry (o + v)) as (e & -> & He);
    [ destruct Hv as [-> | [-> | ->]]; lia | ].
  cbn [JS.ToNumber JS.add JS.number_ToInt32].
  do 3 eexists. split; [ reflexivity | apply and_3 ].
Qed.

Lemma loop_ok (cellId : Z) (ks : list Z) (st : JS.number * JS.number * JS.number) :
  loop_state_ok st ->
  loop_state_ok (fold_left (getFaceIJOrientation_step (S2LookupIJ generated_tables) cellId)
                           ks st).
Proof.
  revert st. induction ks as [| k ks IH]; intros st Hst; [ exact Hst | ].
  cbn [fold_left]. apply IH, step_ok, Hst.
Qed.

Lemma and_1 (a : Z) : 0 <= JS.and a S2SwapMask <= 3.
Proof.
  unfold JS.and. change (JS.ToInt32 S2SwapMask) with (Z.ones 1).
  rewrite Z.land_ones by lia. change (2 ^ 1) with 2.
  pose proof (Z.mod_pos_bound (JS.ToInt32 a) 2 ltac:(lia)). lia.
Qed.

(** [getFaceIJOrientation] on either state of the tables. *)
Lemma getFaceIJOrientation_run (cellId : Z) (orientation : JS.value) (t : tables) :
  reachable t ->
  exists i j o,
    0 <= o <= 3 /\
    getFaceIJOrientation cellId orientation t
    = (Ok (JS.Int i, JS.Int j, JS.Number_of_BigInt (Z.shiftr cellId S2PositionBits),
           match orientation with
           | JS.Num n =>
               if JS.truthy n
               then JS.Num (if JS.truthy (Z.land (lsb cellId) 0x1111111111111110)
                            then JS.xor (JS.ToInt32 o) S2SwapMask
                            else JS.ToInt32 o)
               else orientation
           | JS.Undefined => orientation
           end),
       generated_tables).
Proof.
  intros Ht.
  destruct (loop_ok cellId [7; 6; 5; 4; 3; 2; 1; 0]
              (JS.Int 0, JS.Int 0,
               JS.Int (JS.and (JS.Number_of_BigInt (Z.shiftr cellId S2PositionBits))
                              S2SwapMask)))
    as (i & j & o & Hfold & Ho).
  { do 3 eexists. split; [ reflexivity | apply and_1 ]. }
  exists i, j, o. split; [ exact Ho | ].
  unfold getFaceIJOrientation, bind, get, ret.
  destruct Ht as [-> | ->].
  - change (JS.array_length (S2LookupPositions initial_tables) =? 0) with true.
    cbv beta iota. rewrite generate_from_empty. cbv beta iota.
    rewrite Hfold. reflexivity.
  - change (JS.array_length (S2LookupPositions generated_tables) =? 0) with false.
    cbv beta iota. rewrite Hfold. reflexivity.
Qed.

End Decoder.

(** X15. On the empty tables as on the generated ones, for every
    [cellId], [getFaceIJOrientation] returns integers [i] and [j] (no
    table read misses, so nothing is [NaN]) and the face
    [Number(cellId >> 61n)], and it leaves the generated tables behind;
    the orientation comes back [undefined] when none is passed and is a
    value in 0..3 when a nonzero one is passed. *)
Theorem getFaceIJOrientation_defined (cellId : Z) (orientation : JS.value) (t : tables) :
  reachable t ->
  exists i j orientation',
    getFaceIJOrientation cellId orientation t
    = (Ok (JS.Int i, JS.Int j, JS.Number_of_BigInt (Z.shiftr cellId 61), orientation'),
       generated_tables) /\
    (orientation = JS.Undefined -> orientation' = JS.Undefined) /\
    (forall n, orientation = JS.Num n -> n <> 0 ->
               exists b, orientation' = JS.Num b /\ 0 <= b <= 3).
Proof.
  intros Ht.
  destruct (Decoder.getFaceIJOrientation_run cellId orientation t Ht)
    as (i & j & o & Ho & Hrun).
  exists i, j. eexists. split; [ exact Hrun | ]. split.
  - intros ->. reflexivity.
  - intros n -> Hn. unfold JS.truthy at 1.
    destruct (Z.eqb_spec n 0); [ contradiction | ]. cbn [negb].
    eexists. split; [ reflexivity | ].
    assert (o = 0 \/ o = 1 \/ o = 2 \/ o = 3) as Hcases by lia.
    destruct (JS.truthy (Z.land (lsb cellId) 0x1111111111111110));
      destruct Hcases as [-> | [-> | [-> | ->]]]; vm_compute; split; discriminate.
Qed.

Lemma getFaceIJOrientation_defined_witness :
  exists i j orientation',
    getFaceIJOrientation 0x410 (JS.Num 1) initial_tables
    = (Ok (JS.Int i, JS.Int j, JS.Number_of_BigInt (Z.shiftr 0x410 61), orientation'),
       generated_tables) /\
    (JS.Num 1 = JS.Undefined -> orientation' = JS.Undefined) /\
    (forall n, JS.Num 1 = JS.Num n -> n <> 0 ->
               exists b, orientation' = JS.Num b /\ 0 <= b <= 3).
Proof.
  apply (getFaceIJOrientation_defined 0x410 (JS.Num 1) initial_tables).
  left. reflexivity.
Defined.

(** X16. On a valid identifier [getFaceSiTi] returns the face bits of
    the identifier, a face in 0..5, with integers [si] and [ti]; both
    are odd when the level is 30 and both are even below level 30. *)
Theorem getFaceSiTi_valid (id : Z) (t : tables) :
  isValidId id = true ->
  reachable t ->
  exists si ti level,
    getLevel id = Ok level /\
    getFaceSiTi id t = (Ok (Z.shiftr id 61, JS.Int si, JS.Int ti), generated_tables) /\
    0 <= Z.shiftr id 61 <= 5 /\
    (level = 30 -> Z.odd si = true /\ Z.odd ti = true) /\
    (level < 30 -> Z.even si = true /\ Z.even ti = true).
Proof.
  intros Hvalid Ht.
  pose proof Hvalid as Hshape. apply Valid.isValidId_shape in Hshape as (m & p & Hs).
  pose proof Hs as (Hm & Hp & Hev & E & Hlt).
  assert (0 < id) as Hpos.
  { rewrite E. assert (0 < 2 ^ p) by (apply Z.pow_pos_nonneg; lia). nia. }
  assert (0 <= Z.shiftr id 61 <= 5) as Hface.
  { split; [ apply Z.shiftr_nonneg; lia | ].
    apply (proj2 (Valid.face_bits_le id)). exact Hlt. }
  destruct (Decoder.getFaceIJOrientation_run id JS.Undefined t Ht)
    as (i & j & o & Ho & Hrun).
  change S2PositionBits with 61 in Hrun.
  rewrite Decoder.Number_small in Hrun by lia.
  pose proof (Valid.getLevel_shape id m p Hs) as Hlevel.
  set (delta := if 30 - p / 2 =? 30 then 1
                else if JS.truthy (JS.xor (JS.number_ToInt32 (JS.Int i))
                                          (JS.and (JS.Number_of_BigInt (Z.shiftr id 2)) 1))
                     then 2 else 0).
  exists (2 * i + delta), (2 * j + delta), (30 - p / 2).
  split; [ exact Hlevel | ].
  split; [ | split; [ exact Hface | ] ].
  - unfold getFaceSiTi, bind, lift, ret. rewrite Hrun. cbv beta iota.
    rewrite Hlevel. reflexivity.
  - split.
    + intros Hl. unfold delta. rewrite Hl. cbn [Z.eqb Pos.eqb].
      rewrite !Z.odd_add, !Z.odd_mul. split; reflexivity.
    + intros Hl. unfold delta.
      destruct (Z.eqb_spec (30 - p / 2) 30); [ lia | ].
      rewrite !Z.even_add, !Z.even_mul.
      destruct (JS.truthy _); split; reflexivity.
Qed.

Lemma getFaceSiTi_valid_witness :
  exists si ti level,
    getLevel 0x3000000000000410 = Ok level /\
    getFaceSiTi 0x3000000000000410 initial_tables
    = (Ok (Z.shiftr 0x3000000000000410 61, JS.Int si, JS.Int ti), generated_tables) /\
    0 <= Z.shiftr 0x3000000000000410 61 <= 5 /\
    (level = 30 -> Z.odd si = true /\ Z.odd ti = true) /\
    (level < 30 -> Z.even si = true /\ Z.even ti = true).
Proof.
  apply (getFaceSiTi_valid 0x3000000000000410 initial_tables).
  - reflexivity.
  - left. reflexivity.
Defined.

(** X17. On an invalid identifier [getFaceSiTi] throws the
    [DeveloperError] of [getLevel], and it does so after the decoder has
    run: called on the empty tables, it leaves them generated. *)
Theorem getFaceSiTi_invalid (id : Z) (t : tables) :
  isValidId id = false ->
  reachable t ->
  getFaceSiTi id t = (Throw (DeveloperError None), generated_tables).
Proof.
  intros Hinvalid Ht.
  destruct (Decoder.getFaceIJOrientation_run id JS.Undefined t Ht)
    as (i & j & o & Ho & Hrun).
  unfold getFaceSiTi, bind, lift, ret. rewrite Hrun. cbv beta iota.
  unfold getLevel. rewrite Hinvalid. reflexivity.
Qed.

Lemma getFaceSiTi_invalid_witness :
  getFaceSiTi 0 initial_tables = (Throw (DeveloperError None), generated_tables).
Proof.
  apply (getFaceSiTi_invalid 0 initial_tables).
  - reflexivity.
  - left. reflexivity.
Defined.


